(** * gitops-secrets: the encrypted secrets envelope

    A shallow embedding of [src/secrets.ts] (masterKey, deriveKey, encrypt,
    decrypt, getEnvObject, mergeSecrets, loadSecrets), [src/utils.ts] (the
    base64 helpers), [src/types.ts] (EnvTarget) and
    [src/providers/doppler.ts] (fetchSecrets), with the host facilities they
    call:

    - strings are JavaScript strings, i.e. lists of UTF-16 code units;
    - [btoa]/[atob], [TextEncoder]/[TextDecoder] and [Number.parseInt] are
      written out from their standards (WHATWG Infra and Encoding, ECMA-262);
    - Web Crypto ([crypto.subtle]), [Number] on strings and [JSON.parse] are
      an interface ([Platform]) whose laws are stated separately, and so is
      the network ([Network]); PBKDF2 with HMAC-SHA-256 and AES-256-GCM are
      also written out ([WebCrypto]), to run the module on envelopes of its
      own;
    - [process.env] and [import.meta.env] are objects in a store, reached
      through references, so that aliasing and in-place mutation are visible;
      what an assignment to one of their properties records depends on the
      kind of the object (an ordinary object, or Node's [process.env]);
    - an async function is a computation over the world that either returns
      or throws (a rejected promise is a throw at the [await]). *)

From Stdlib Require Import ZArith Lia List Ascii String DecimalString.
From stdpp Require Import gmap list strings.

Local Open Scope Z_scope.

(** ** JavaScript strings *)

(** A string is its sequence of UTF-16 code units. *)
Abbreviation jsstring := (list Z).

Definition js (s : string) : jsstring :=
  map (fun a => Z.of_nat (nat_of_ascii a)) (list_ascii_of_string s).

Definition is_code_unit (c : Z) : Prop := 0 <= c < 65536.
Definition is_byte (b : Z) : Prop := 0 <= b < 256.

(** [String.prototype.startsWith] and [split] with a one-unit separator. *)
Fixpoint startsWith (s p : jsstring) {struct p} : bool :=
  match p, s with
  | [], _ => true
  | _ :: _, [] => false
  | a :: p', b :: s' => (a =? b) && startsWith s' p'
  end.

Fixpoint split_on (sep : Z) (s : jsstring) : list jsstring :=
  match s with
  | [] => [[]]
  | c :: s' =>
      if c =? sep then [] :: split_on sep s'
      else match split_on sep s' with
           | p :: ps => (c :: p) :: ps
           | [] => [[c]]
           end
  end.

(** Template-literal rendering of a non-negative integer ([`${n}`]). *)
Definition decimal_of_nat (n : nat) : jsstring :=
  js (NilZero.string_of_uint (Nat.to_uint n)).

Definition decimal_of_Z (z : Z) : jsstring :=
  js (NilZero.string_of_int (Z.to_int z)).

(** ** Thrown values and outcomes *)

(** What a [catch] clause can receive: an [Error] instance (including
    TypeError, SyntaxError and DOMException, whose prototypes inherit from
    [Error.prototype]) with its name and message, or any other value, of
    which only [String(value)] is observed. *)
Inductive thrown : Type :=
  | ErrorObj (name message : jsstring)
  | NonError (rendered : jsstring).

Inductive outcome (A : Type) : Type :=
  | Returned (a : A)
  | Threw (e : thrown).
Arguments Returned {A} a.
Arguments Threw {A} e.

Definition JsError (message : jsstring) : thrown := ErrorObj (js "Error") message.

(** [error instanceof Error ? error.message : String(error)] *)
Definition message_of (e : thrown) : jsstring :=
  match e with
  | ErrorObj _ m => m
  | NonError r => r
  end.

(** ** Base64: [btoa] and [atob] (WHATWG forgiving-base64) *)

Definition b64_char (i : Z) : Z :=
  if i <? 26 then 65 + i
  else if i <? 52 then 97 + (i - 26)
  else if i <? 62 then 48 + (i - 52)
  else if i =? 62 then 43
  else 47.

Definition b64_index (c : Z) : option Z :=
  if (65 <=? c) && (c <=? 90) then Some (c - 65)
  else if (97 <=? c) && (c <=? 122) then Some (c - 71)
  else if (48 <=? c) && (c <=? 57) then Some (c + 4)
  else if c =? 43 then Some 62
  else if c =? 47 then Some 63
  else None.

(** Three bytes give four 6-bit groups; a final group of one or two bytes
    gives two or three, the unused low bits being zero. Shifts and masks are
    written as quotients and remainders by powers of two. *)
Fixpoint sextets_of_bytes (bs : list Z) : list Z :=
  match bs with
  | [] => []
  | a :: bs1 =>
      match bs1 with
      | [] => [a / 4; (a mod 4) * 16]
      | b :: bs2 =>
          match bs2 with
          | [] => [a / 4; (a mod 4) * 16 + b / 16; (b mod 16) * 4]
          | c :: rest =>
              a / 4 :: (a mod 4) * 16 + b / 16 :: (b mod 16) * 4 + c / 64
                :: c mod 64 :: sextets_of_bytes rest
          end
      end
  end.

Definition b64_padding (n : nat) : jsstring :=
  match (n mod 3)%nat with
  | 1%nat => [61; 61]
  | 2%nat => [61]
  | _ => []
  end.

Definition base64_encode (bs : list Z) : jsstring :=
  map b64_char (sextets_of_bytes bs) ++ b64_padding (length bs).

Definition InvalidCharacterError : thrown :=
  ErrorObj (js "InvalidCharacterError") (js "Invalid character").

(** [btoa(data)]: throws when a code unit is above U+00FF. *)
Definition btoa (data : jsstring) : outcome jsstring :=
  if forallb (fun c => (0 <=? c) && (c <=? 255)) data
  then Returned (base64_encode data)
  else Threw InvalidCharacterError.

Definition is_ascii_whitespace (c : Z) : bool :=
  (c =? 9) || (c =? 10) || (c =? 12) || (c =? 13) || (c =? 32).

(** Forgiving-base64 step 2: when the length is a multiple of four, one or
    two trailing [=] are removed. *)
Definition strip_padding (d : jsstring) : jsstring :=
  if (Z.of_nat (length d) mod 4 =? 0) then
    match rev d with
    | 61 :: 61 :: r => rev r
    | 61 :: r => rev r
    | _ => d
    end
  else d.

Fixpoint indices_of (d : jsstring) : option (list Z) :=
  match d with
  | [] => Some []
  | c :: d' =>
      match b64_index c, indices_of d' with
      | Some i, Some l => Some (i :: l)
      | _, _ => None
      end
  end.

(** Four 6-bit groups give three bytes; of a final group of two or three,
    the low four or two bits are discarded. *)
Fixpoint bytes_of_sextets (l : list Z) : list Z :=
  match l with
  | [] => []
  | a :: l1 =>
      match l1 with
      | [] => []
      | b :: l2 =>
          match l2 with
          | [] => [a * 4 + b / 16]
          | c :: l3 =>
              match l3 with
              | [] => [a * 4 + b / 16; (b mod 16) * 16 + c / 4]
              | d :: rest =>
                  a * 4 + b / 16 :: (b mod 16) * 16 + c / 4
                    :: (c mod 4) * 64 + d :: bytes_of_sextets rest
              end
          end
      end
  end.

(** [atob(data)]: the decoded bytes as a binary string. *)
Definition atob (data : jsstring) : outcome jsstring :=
  let d := strip_padding (filter (fun c => negb (is_ascii_whitespace c)) data) in
  if Z.of_nat (length d) mod 4 =? 1 then Threw InvalidCharacterError
  else match indices_of d with
       | Some l => Returned (bytes_of_sextets l)
       | None => Threw InvalidCharacterError
       end.

(** *** src/utils.ts *)

(** [bytes[i] = binaryString.charCodeAt(i)]: a store into a [Uint8Array]
    keeps the low eight bits. *)
Definition base64ToUint8Array (base64 : jsstring) : outcome (list Z) :=
  match atob base64 with
  | Returned binaryString => Returned (map (fun c => c mod 256) binaryString)
  | Threw e => Threw e
  end.

(** [btoa(Array.from(buffer).map(String.fromCharCode).join(''))] *)
Definition uint8ArrayToBase64 (buffer : list Z) : outcome jsstring :=
  btoa buffer.

(** ** Text encoding: [TextEncoder] and [TextDecoder('utf8')] *)

Definition is_high_surrogate (c : Z) : bool := (0xD800 <=? c) && (c <=? 0xDBFF).
Definition is_low_surrogate (c : Z) : bool := (0xDC00 <=? c) && (c <=? 0xDFFF).

(** Conversion of a string to scalar values (a USVString): a surrogate pair
    is one supplementary code point, a lone surrogate becomes U+FFFD. *)
Fixpoint scalar_values (s : jsstring) : list Z :=
  match s with
  | [] => []
  | c :: s' =>
      if is_high_surrogate c then
        match s' with
        | d :: s'' =>
            if is_low_surrogate d
            then 0x10000 + (c - 0xD800) * 0x400 + (d - 0xDC00) :: scalar_values s''
            else 0xFFFD :: scalar_values s'
        | [] => [0xFFFD]
        end
      else if is_low_surrogate c then 0xFFFD :: scalar_values s'
      else c :: scalar_values s'
  end.

(** The UTF-8 bytes of one code point. *)
Definition utf8_encode_cp (c : Z) : list Z :=
  if c <? 0x80 then [c]
  else if c <? 0x800 then [0xC0 + c / 64; 0x80 + c mod 64]
  else if c <? 0x10000 then
    [0xE0 + c / 4096; 0x80 + (c / 64) mod 64; 0x80 + c mod 64]
  else
    [0xF0 + c / 262144; 0x80 + (c / 4096) mod 64; 0x80 + (c / 64) mod 64;
     0x80 + c mod 64].

(** [new TextEncoder().encode(s)] *)
Definition TextEncoder_encode (s : jsstring) : list Z :=
  flat_map utf8_encode_cp (scalar_values s).

(** The WHATWG UTF-8 decoder: the bytes still needed for the code point
    under construction, its value so far, and the range allowed for the
    next byte. *)
Record utf8_state : Type := mkUtf8 {
  bytes_needed : nat;
  code_point : Z;
  lower_boundary : Z;
  upper_boundary : Z }.

Definition utf8_initial : utf8_state := mkUtf8 0 0 0x80 0xBF.

(** A byte read with no code point under construction. *)
Definition utf8_lead (b : Z) : list Z * utf8_state :=
  if (0 <=? b) && (b <=? 0x7F) then ([b], utf8_initial)
  else if (0xC2 <=? b) && (b <=? 0xDF) then ([], mkUtf8 1 (b mod 32) 0x80 0xBF)
  else if (0xE0 <=? b) && (b <=? 0xEF) then
    ([], mkUtf8 2 (b mod 16)
           (if b =? 0xE0 then 0xA0 else 0x80) (if b =? 0xED then 0x9F else 0xBF))
  else if (0xF0 <=? b) && (b <=? 0xF4) then
    ([], mkUtf8 3 (b mod 8)
           (if b =? 0xF0 then 0x90 else 0x80) (if b =? 0xF4 then 0x8F else 0xBF))
  else ([0xFFFD], utf8_initial).

Fixpoint utf8_decode_from (st : utf8_state) (bs : list Z) : list Z :=
  match bs with
  | [] => match bytes_needed st with O => [] | S _ => [0xFFFD] end
  | b :: bs' =>
      match bytes_needed st with
      | O => let (out, st') := utf8_lead b in out ++ utf8_decode_from st' bs'
      | S k =>
          if (lower_boundary st <=? b) && (b <=? upper_boundary st) then
            let cp := code_point st * 64 + b mod 64 in
            match k with
            | O => cp :: utf8_decode_from utf8_initial bs'
            | S _ => utf8_decode_from (mkUtf8 k cp 0x80 0xBF) bs'
            end
          else
            (* the byte is handed back to the stream and read again *)
            let (out, st') := utf8_lead b in
            0xFFFD :: out ++ utf8_decode_from st' bs'
      end
  end.

(** A code point as UTF-16 code units. *)
Definition utf16_units (cp : Z) : jsstring :=
  if cp <? 0x10000 then [cp]
  else [0xD800 + (cp - 0x10000) / 0x400; 0xDC00 + (cp - 0x10000) mod 0x400].

(** With [ignoreBOM] left at its default, a leading EF BB BF is skipped. *)
Definition skip_bom (bs : list Z) : list Z :=
  match bs with
  | 0xEF :: 0xBB :: 0xBF :: rest => rest
  | _ => bs
  end.

(** [new TextDecoder('utf8').decode(bytes)]: never throws ([fatal] is off). *)
Definition TextDecoder_decode (bs : list Z) : jsstring :=
  flat_map utf16_units (utf8_decode_from utf8_initial (skip_bom bs)).

(** ** Numbers *)

(** ECMA-262 WhiteSpace and LineTerminator code units, which
    [Number.parseInt] skips at the start of its input. *)
Definition is_js_whitespace (c : Z) : bool :=
  (c =? 0x09) || (c =? 0x0A) || (c =? 0x0B) || (c =? 0x0C) || (c =? 0x0D)
  || (c =? 0x20) || (c =? 0xA0) || (c =? 0x1680)
  || ((0x2000 <=? c) && (c <=? 0x200A))
  || (c =? 0x2028) || (c =? 0x2029) || (c =? 0x202F) || (c =? 0x205F)
  || (c =? 0x3000) || (c =? 0xFEFF).

Definition is_digit (c : Z) : bool := (48 <=? c) && (c <=? 57).

Fixpoint trim_start (s : jsstring) : jsstring :=
  match s with
  | c :: s' => if is_js_whitespace c then trim_start s' else s
  | [] => []
  end.

Fixpoint leading_digits (s : jsstring) : jsstring :=
  match s with
  | c :: s' => if is_digit c then c :: leading_digits s' else []
  | [] => []
  end.

Definition digits_value (ds : jsstring) : Z :=
  fold_left (fun acc c => acc * 10 + (c - 48)) ds 0.

(** The host interface: IEEE doubles (only integers and NaN are ever built
    here), [Number] applied to a string, the Web Crypto operations with the
    algorithm parameters the module fixes (PBKDF2 with SHA-256 deriving a
    256-bit AES-GCM key) and the largest iteration count the host takes
    (2^32 - 1 by the interface, 2^31 - 1 on Node), and [JSON.parse] at the
    type the module casts its result to, [Record<string, string>], an
    object being given by its entries in the order of [Object.entries]. *)
Class Platform : Type := {
  number : Type;
  num_of_Z : Z -> number;
  NaN : number;
  StringToNumber : jsstring -> number;
  BaseKey : Type;
  CryptoKey : Type;
  subtle_importKey : list Z -> outcome BaseKey;
  max_iterations : Z;
  subtle_deriveKey : list Z -> number -> BaseKey -> outcome CryptoKey;
  subtle_encrypt : list Z -> CryptoKey -> list Z -> outcome (list Z);
  subtle_decrypt : list Z -> CryptoKey -> list Z -> outcome (list Z);
  JSON_parse : jsstring -> outcome (list (jsstring * jsstring))
}.

(** ** Environment objects

    [process.env] and [import.meta.env] are objects of the host, and what an
    access to one of their properties does is the host's. Two kinds are
    told apart: an ordinary object inheriting from [Object.prototype], which
    is what a bundler or a test puts at [import.meta.env], and what the
    repository's tests leave at [process.env] when they restore it from a
    copy; and Node's [process.env] on a POSIX system, whose accesses go to
    the environment of the process through [setenv] and [getenv]. *)
Inductive EnvKind : Type :=
  | OrdinaryObject
  | NodeProcessEnv.

Fixpoint before_nul (s : jsstring) : jsstring :=
  match s with
  | c :: s' => if c =? 0 then [] else c :: before_nul s'
  | [] => []
  end.

(** A string as [setenv] and [getenv] take it: converted to UTF-8, where a
    lone surrogate becomes U+FFFD, and ending before its first NUL. It is
    given as the string read back from those bytes. *)
Definition c_string (s : jsstring) : jsstring :=
  flat_map utf16_units (scalar_values (before_nul s)).

(** [obj[key] = value] for strings [key] and [value], on the entries of the
    object. An ordinary object takes the entry as it is, except under the
    name [__proto__] when it has no property of its own by that name: the
    assignment then reaches the setter inherited from [Object.prototype],
    which ignores a string. Node hands name and value to [setenv], which
    refuses an empty name and a name holding [=]; the refusal is not
    reported. *)
Definition assign_property (kind : EnvKind) (key value : jsstring)
    (m : gmap (list Z) (list Z)) : gmap (list Z) (list Z) :=
  match kind with
  | OrdinaryObject =>
      if bool_decide (key = js "__proto__") && bool_decide (m !! key = None)
      then m
      else <[key := value]> m
  | NodeProcessEnv =>
      let name := c_string key in
      if bool_decide (name = []) || existsb (Z.eqb 61) name
      then m
      else <[name := c_string value]> m
  end.

(** [obj[key]] for a name that [Object.prototype] does not define: the
    value of the object's own property, if any. *)
Definition get_property (kind : EnvKind) (key : jsstring)
    (m : gmap (list Z) (list Z)) : option jsstring :=
  match kind with
  | OrdinaryObject => m !! key
  | NodeProcessEnv => m !! c_string key
  end.

(** ** The world a call runs in *)

Inductive Event : Type :=
  | GetRandomValues (n : nat)
  | ImportKey
  | DeriveKey
  | CipherEncrypt
  | CipherDecrypt
  | ConsoleError (label : jsstring) (e : thrown).

(** [process_env] is [None] when [typeof process] is ['undefined'],
    [Some None] when [process.env] is missing, and otherwise the reference
    of the environment object; likewise [import_meta_env] for [import.meta]
    and [import.meta.env]. The two references may be equal. [heap] holds
    the entries of each environment object and [kind_of] tells its kind.
    [entropy] is what the secure random source will deliver, [drawn] how
    many of its bytes have been consumed. *)
Record World : Type := mkWorld {
  process_env : option (option nat);
  import_meta_env : option (option nat);
  heap : gmap nat (gmap (list Z) (list Z));
  kind_of : nat -> EnvKind;
  entropy : nat -> Z;
  drawn : nat;
  trace : list Event }.

Definition with_heap (w : World) (h : gmap nat (gmap (list Z) (list Z))) : World :=
  mkWorld (process_env w) (import_meta_env w) h (kind_of w) (entropy w) (drawn w)
    (trace w).

Definition with_trace (w : World) (t : list Event) : World :=
  mkWorld (process_env w) (import_meta_env w) (heap w) (kind_of w) (entropy w)
    (drawn w) t.

Definition with_drawn (w : World) (n : nat) : World :=
  mkWorld (process_env w) (import_meta_env w) (heap w) (kind_of w) (entropy w) n
    (trace w).

Definition env_at (w : World) (l : nat) : gmap (list Z) (list Z) :=
  default ∅ (heap w !! l).

(** Computations: a call returns or throws, and leaves a world behind. *)
Definition Comp (A : Type) : Type := World -> outcome A * World.

Definition ret {A} (a : A) : Comp A := fun w => (Returned a, w).
Definition throw {A} (e : thrown) : Comp A := fun w => (Threw e, w).
Definition lift {A} (o : outcome A) : Comp A := fun w => (o, w).

Definition bind {A B} (m : Comp A) (k : A -> Comp B) : Comp B :=
  fun w =>
    match m w with
    | (Returned a, w') => k a w'
    | (Threw e, w') => (Threw e, w')
    end.

Definition try_catch {A} (m : Comp A) (handler : thrown -> Comp A) : Comp A :=
  fun w =>
    match m w with
    | (Returned a, w') => (Returned a, w')
    | (Threw e, w') => handler e w'
    end.

Notation "x <- m ;; k" := (bind m (fun x => k))
  (at level 100, m at next level, right associativity).

Fixpoint for_each {A} (l : list A) (body : A -> Comp unit) : Comp unit :=
  match l with
  | [] => ret tt
  | x :: l' => _ <- body x ;; for_each l' body
  end.

(** A host operation: its result, recorded in the trace. *)
Definition host_call {A} (ev : Event) (o : outcome A) : Comp A :=
  fun w => (o, with_trace w (trace w ++ [ev])).

(** [crypto.getRandomValues(new Uint8Array(n))] *)
Definition getRandomValues (n : nat) : Comp (list Z) :=
  fun w =>
    (Returned (map (fun i => entropy w (drawn w + i)%nat mod 256) (seq 0 n)),
     with_trace (with_drawn w (drawn w + n)%nat) (trace w ++ [GetRandomValues n])).

Definition console_error (label : jsstring) (e : thrown) : Comp unit :=
  fun w => (Returned tt, with_trace w (trace w ++ [ConsoleError label e])).

Definition ReferenceError (message : jsstring) : thrown :=
  ErrorObj (js "ReferenceError") message.
Definition TypeError (message : jsstring) : thrown :=
  ErrorObj (js "TypeError") message.

(** The messages of V8 for a property access on [undefined]. *)
Definition reading_undefined (property : jsstring) : thrown :=
  TypeError (js "Cannot read properties of undefined (reading '" ++ property
             ++ js "')").
Definition setting_undefined (property : jsstring) : thrown :=
  TypeError (js "Cannot set properties of undefined (setting '" ++ property
             ++ js "')").

(** [process.env[key]] as an expression. *)
Definition process_env_get (key : jsstring) : Comp (option jsstring) :=
  fun w =>
    match process_env w with
    | None => (Threw (ReferenceError (js "process is not defined")), w)
    | Some None => (Threw (reading_undefined key), w)
    | Some (Some l) => (Returned (get_property (kind_of w l) key (env_at w l)), w)
    end.

(** [typeof process !== 'undefined'], [typeof import.meta !== 'undefined'],
    and the guarded reads [typeof process !== 'undefined' && process.env]
    and [typeof import.meta !== 'undefined' && import.meta.env]. *)
Definition typeof_process_defined : Comp bool :=
  fun w => (Returned (bool_decide (process_env w <> None)), w).

Definition typeof_import_meta_defined : Comp bool :=
  fun w => (Returned (bool_decide (import_meta_env w <> None)), w).

Definition process_env_object : Comp (option nat) :=
  fun w => (Returned (mjoin (process_env w)), w).

Definition import_meta_env_object : Comp (option nat) :=
  fun w => (Returned (mjoin (import_meta_env w)), w).

(** [obj[key] = value] on the object behind a reference. *)
Definition store_env (l : nat) (key value : jsstring) : Comp unit :=
  fun w =>
    (Returned tt,
     with_heap w
       (<[l := assign_property (kind_of w l) key value (env_at w l)]> (heap w))).

(** [process.env[key] = value] *)
Definition process_env_set (key value : jsstring) : Comp unit :=
  fun w =>
    match process_env w with
    | None => (Threw (ReferenceError (js "process is not defined")), w)
    | Some None => (Threw (setting_undefined key), w)
    | Some (Some l) => store_env l key value w
    end.

(** [import.meta.env[key] = value] *)
Definition import_meta_env_set (key value : jsstring) : Comp unit :=
  fun w =>
    match import_meta_env w with
    | None => (Threw (reading_undefined (js "env")), w)
    | Some None => (Threw (setting_undefined key), w)
    | Some (Some l) => store_env l key value w
    end.

(** ** src/types.ts *)

Module EnvTarget.
Definition PROCESS : jsstring := js "process".
Definition IMPORT_META : jsstring := js "import.meta".
End EnvTarget.

(** ** src/secrets.ts *)

Definition MASTER_KEY_VAR : jsstring := js "GITOPS_SECRETS_MASTER_KEY".
Definition PBKDF2_ROUNDS_VAR : jsstring := js "GITOPS_SECRETS_PBKDF2_ROUNDS".
Definition AES_IV_BYTES : nat := 12.
Definition AES_SALT_BYTES : nat := 8.
Definition ENCODING : jsstring := js "base64".
Definition COLON : Z := 58.

(** The value of [process.env.GITOPS_SECRETS_PBKDF2_ROUNDS || 1000000]:
    the variable's text when it is set and not empty, else the number. *)
Inductive rounds_value : Type :=
  | RoundsText (s : jsstring)
  | RoundsNumber (n : Z).

(** The module's top-level constant, evaluated once, when the module is
    loaded. *)
Record ModuleState : Type := mkModule { PBKDF2_ROUNDS : rounds_value }.

Definition load_module : Comp ModuleState :=
  v <- process_env_get PBKDF2_ROUNDS_VAR ;;
  ret (mkModule match v with
                | Some (c :: s) => RoundsText (c :: s)
                | _ => RoundsNumber 1000000
                end).

(** [`${PBKDF2_ROUNDS}`] *)
Definition rounds_text (r : rounds_value) : jsstring :=
  match r with
  | RoundsText s => s
  | RoundsNumber n => decimal_of_Z n
  end.

Definition masterKey_message : jsstring :=
  js "The 'GITOPS_SECRETS_MASTER_KEY' environment variable must be set to a string of 16 characters or more".

Definition masterKey : Comp jsstring :=
  v <- process_env_get MASTER_KEY_VAR ;;
  match v with
  | Some k =>
      if (Nat.eqb (length k) 0) || (length k <? 16)%nat
      then throw (JsError masterKey_message)
      else ret k
  | None => throw (JsError masterKey_message)
  end.

Section Secrets.
Context {P : Platform}.

(** [Number.parseInt(s, 10)] *)
Definition parseInt10 (s : jsstring) : number :=
  let t := trim_start s in
  let '(sign, t) :=
    match t with
    | 45 :: t' => (-1, t')
    | 43 :: t' => (1, t')
    | _ => (1, t)
    end in
  match leading_digits t with
  | [] => NaN
  | ds => num_of_Z (sign * digits_value ds)
  end.

(** [Number(PBKDF2_ROUNDS)] *)
Definition rounds_number (r : rounds_value) : number :=
  match r with
  | RoundsText s => StringToNumber s
  | RoundsNumber n => num_of_Z n
  end.

Variable M : ModuleState.

Definition deriveKey (masterKeyString : jsstring) (salt : list Z)
    (iterations : option number) : Comp CryptoKey :=
  let iterations := default (rounds_number (PBKDF2_ROUNDS M)) iterations in
  let masterKeyBuffer := TextEncoder_encode masterKeyString in
  importedKey <- host_call ImportKey (subtle_importKey masterKeyBuffer) ;;
  host_call DeriveKey (subtle_deriveKey salt iterations importedKey).

Definition encrypt (secrets : jsstring) : Comp jsstring :=
  salt <- getRandomValues AES_SALT_BYTES ;;
  iv <- getRandomValues AES_IV_BYTES ;;
  passphrase <- masterKey ;;
  key <- deriveKey passphrase salt None ;;
  let dataBuffer := TextEncoder_encode secrets in
  encryptedBuffer <- host_call CipherEncrypt (subtle_encrypt iv key dataBuffer) ;;
  saltBase64 <- lift (uint8ArrayToBase64 salt) ;;
  ivBase64 <- lift (uint8ArrayToBase64 iv) ;;
  encryptedBase64 <- lift (uint8ArrayToBase64 encryptedBuffer) ;;
  ret (ENCODING ++ COLON :: rounds_text (PBKDF2_ROUNDS M) ++ COLON :: saltBase64
         ++ COLON :: ivBase64 ++ COLON :: encryptedBase64).

Definition format_message (n : nat) : jsstring :=
  js "Encrypted payload invalid. Expected 4 sections but got " ++ decimal_of_nat n.

(** The body of [decrypt]'s [try] block. *)
Definition decrypt_guarded (rounds : number) (salt iv encryptedContent : list Z)
    : Comp jsstring :=
  passphrase <- masterKey ;;
  key <- deriveKey passphrase salt (Some rounds) ;;
  decryptedBuffer <-
    host_call CipherDecrypt (subtle_decrypt iv key encryptedContent) ;;
  ret (TextDecoder_decode decryptedBuffer).

Definition encodedData_of (ciphertext : jsstring) : jsstring :=
  if startsWith ciphertext (ENCODING ++ [COLON])
  then drop (length (ENCODING ++ [COLON])) ciphertext
  else ciphertext.

Definition decrypt (ciphertext : jsstring) : Comp jsstring :=
  let encodedData := encodedData_of ciphertext in
  let parts := split_on COLON encodedData in
  match parts with
  | [p0; p1; p2; p3] =>
      let rounds := parseInt10 p0 in
      salt <- lift (base64ToUint8Array p1) ;;
      iv <- lift (base64ToUint8Array p2) ;;
      encryptedContent <- lift (base64ToUint8Array p3) ;;
      try_catch (decrypt_guarded rounds salt iv encryptedContent)
        (fun error =>
           throw (JsError (js "Decryption failed: " ++ message_of error)))
  | _ => throw (JsError (format_message (length parts)))
  end.

Definition process_env_unavailable : thrown :=
  JsError (js "process.env is not available in this environment").
Definition import_meta_env_unavailable : thrown :=
  JsError (js "import.meta.env is not available in this environment").
Definition unsupported_target (target : jsstring) : thrown :=
  JsError (js "Unsupported environment target: " ++ target).

(** The result is the reference of the environment object. *)
Definition getEnvObject (target : jsstring) : Comp nat :=
  meta <- typeof_import_meta_defined ;;
  if negb meta then
    env <- process_env_object ;;
    match env with
    | Some l => ret l
    | None => throw process_env_unavailable
    end
  else if bool_decide (target = EnvTarget.PROCESS) then
    env <- process_env_object ;;
    match env with
    | Some l => ret l
    | None => throw process_env_unavailable
    end
  else if bool_decide (target = EnvTarget.IMPORT_META) then
    env <- import_meta_env_object ;;
    match env with
    | Some l => ret l
    | None => throw import_meta_env_unavailable
    end
  else throw (unsupported_target target).

(** A payload is given by [Object.entries(payload)], its key-value pairs
    in the order of enumeration. *)
Definition mergeSecrets (payload : list (jsstring * jsstring)) (target : jsstring)
    : Comp nat :=
  envObject <- getEnvObject target ;;
  meta <- typeof_import_meta_defined ;;
  if negb meta then
    env <- process_env_object ;;
    _ <- match env with
         | Some _ =>
             for_each payload
               (fun '(key, value) => process_env_set key value)
         | None => ret tt
         end ;;
    ret envObject
  else
    _ <- for_each payload
           (fun '(key, value) =>
              proc <- typeof_process_defined ;;
              if bool_decide (target = EnvTarget.PROCESS) && proc
              then process_env_set key value
              else
                meta' <- typeof_import_meta_defined ;;
                if bool_decide (target = EnvTarget.IMPORT_META) && meta'
                then import_meta_env_set key value
                else ret tt) ;;
    ret envObject.

Definition loadSecrets (encryptedSecrets : jsstring) (target : option jsstring)
    : Comp nat :=
  let target := default EnvTarget.PROCESS target in
  try_catch
    (decryptedJson <- decrypt encryptedSecrets ;;
     secretsPayload <- lift (JSON_parse decryptedJson) ;;
     mergeSecrets secretsPayload target)
    (fun error =>
       _ <- console_error (js "Failed to load secrets:") error ;;
       getEnvObject target).
End Secrets.

(** ** Laws of the host interface *)

Definition derives_from {P : Platform} (passphrase : jsstring) (salt : list Z)
    (iterations : number) (key : CryptoKey) : Prop :=
  exists baseKey,
    subtle_importKey (TextEncoder_encode passphrase) = Returned baseKey
    /\ subtle_deriveKey salt iterations baseKey = Returned key.

(** What the module relies on: [Number] reads a short decimal numeral as
    its value; a raw key can always be imported for PBKDF2; derivation
    succeeds for an iteration count from 1 to the largest the host takes,
    which is no less than the module's default; AES-GCM encrypts under a
    96-bit nonce, and decrypting what it produced, under the same key and
    nonce, gives the plaintext back. *)
Class PlatformLaws (P : Platform) : Prop := {
  StringToNumber_decimal : forall s,
    s <> [] -> forallb is_digit s = true -> (length s <= 15)%nat ->
    StringToNumber s = num_of_Z (digits_value s);
  importKey_total : forall raw,
    Forall is_byte raw -> exists baseKey, subtle_importKey raw = Returned baseKey;
  deriveKey_total : forall salt n baseKey,
    Forall is_byte salt -> 0 < n <= max_iterations ->
    exists key, subtle_deriveKey salt (num_of_Z n) baseKey = Returned key;
  default_iterations_taken : 1000000 <= max_iterations;
  encrypt_total : forall iv key data,
    length iv = 12%nat -> Forall is_byte iv -> Forall is_byte data ->
    exists c, subtle_encrypt iv key data = Returned c /\ Forall is_byte c;
  decrypt_encrypt : forall iv key data c,
    Forall is_byte data ->
    subtle_encrypt iv key data = Returned c ->
    subtle_decrypt iv key c = Returned data
}.

(** ** A small instance of the host interface

    Keys are one byte, the cipher adds the key to every byte and appends a
    one-byte checksum. It serves to run the module on concrete inputs. *)
Module Toy.
Definition string_to_number (s : jsstring) : option Z :=
  match s with
  | [] => Some 0
  | _ => if forallb is_digit s then Some (digits_value s) else None
  end.

Definition byte_sum (l : list Z) : Z := fold_right Z.add 0 l.

Definition OperationError : thrown :=
  ErrorObj (js "OperationError")
    (js "The operation failed for an operation-specific reason").

Definition importKey (raw : list Z) : outcome (list Z) := Returned raw.

Definition deriveKey (salt : list Z) (n : option Z) (baseKey : list Z)
    : outcome Z :=
  match n with
  | Some z =>
      if (0 <? z) && (z <? 2 ^ 32)
      then Returned ((byte_sum baseKey + byte_sum salt + z) mod 256)
      else Threw OperationError
  | None => Threw (TypeError (js "Value is not of type 'unsigned long'"))
  end.

Definition tag (iv : list Z) (key : Z) (body : list Z) : Z :=
  (byte_sum body + byte_sum iv + key) mod 256.

Definition encrypt (iv : list Z) (key : Z) (data : list Z) : outcome (list Z) :=
  if (length iv =? 12)%nat then
    let body := map (fun b => (b + key) mod 256) data in
    Returned (body ++ [tag iv key body])
  else Threw OperationError.

Definition decrypt (iv : list Z) (key : Z) (c : list Z) : outcome (list Z) :=
  match rev c with
  | t :: rbody =>
      let body := rev rbody in
      if t =? tag iv key body
      then Returned (map (fun b => (b - key) mod 256) body)
      else Threw OperationError
  | [] => Threw OperationError
  end.

(** A reader of JSON objects in their plainest form: string members
    written without white space or escapes, the names distinct and none of
    them starting with a digit, so that the members come in the order
    written. Every other text is refused here. *)
Fixpoint read_string (s : jsstring) : option (jsstring * jsstring) :=
  match s with
  | [] => None
  | c :: s' =>
      if c =? 34 then Some ([], s')
      else if (c =? 92) || (c <? 32) then None
      else match read_string s' with
           | Some (t, rest) => Some (c :: t, rest)
           | None => None
           end
  end.

Fixpoint read_members (fuel : nat) (s : jsstring)
    : option (list (jsstring * jsstring)) :=
  match fuel, s with
  | S fuel', 34 :: s1 =>
      match read_string s1 with
      | Some (k, 58 :: 34 :: s2) =>
          match read_string s2 with
          | Some (v, [125]) => Some [(k, v)]
          | Some (v, 44 :: s3) =>
              match read_members fuel' s3 with
              | Some ms => Some ((k, v) :: ms)
              | None => None
              end
          | _ => None
          end
      | _ => None
      end
  | _, _ => None
  end.

Definition plain_name (k : jsstring) : bool :=
  match k with
  | c :: _ => negb (is_digit c)
  | [] => true
  end.

Definition parse (s : jsstring) : outcome (list (jsstring * jsstring)) :=
  let refused := Threw (ErrorObj (js "SyntaxError") (js "Unexpected token")) in
  match s with
  | [123; 125] => Returned []
  | 123 :: s' =>
      match read_members (length s') s' with
      | Some ms =>
          if forallb plain_name ms.*1 && bool_decide (NoDup ms.*1)
          then Returned ms else refused
      | None => refused
      end
  | _ => refused
  end.

Definition platform : Platform := {|
  number := option Z;
  num_of_Z := Some;
  NaN := None;
  StringToNumber := string_to_number;
  BaseKey := list Z;
  CryptoKey := Z;
  subtle_importKey := importKey;
  max_iterations := 2 ^ 32 - 1;
  subtle_deriveKey := deriveKey;
  subtle_encrypt := encrypt;
  subtle_decrypt := decrypt;
  JSON_parse := parse
|}.

(** Reference 0 is Node's [process.env], every other an ordinary object. *)
Definition kinds (l : nat) : EnvKind :=
  match l with
  | O => NodeProcessEnv
  | S _ => OrdinaryObject
  end.

(** A Node process: [import.meta] undefined, [process.env] at reference 0
    holding the given variables, and the random source delivering
    1, 2, 3, ... *)
Definition node (vars : gmap (list Z) (list Z)) : World :=
  mkWorld (Some (Some 0%nat)) None {[ 0%nat := vars ]} kinds
    (fun i => Z.of_nat i + 1) 0 [].

(** A module context where [import.meta] exists: with [import.meta.env]
    at reference 1 when [with_env], without it otherwise. *)
Definition esm (with_env : bool) (vars : gmap (list Z) (list Z)) : World :=
  mkWorld (Some (Some 0%nat)) (Some (if with_env then Some 1%nat else None))
    {[ 0%nat := vars; 1%nat := ∅ ]} kinds (fun i => Z.of_nat i + 1) 0 [].

Definition passphrase : jsstring := js "test-master-key-16chars+".
Definition keyed : gmap (list Z) (list Z) := {[ MASTER_KEY_VAR := passphrase ]}.
Definition defaults : ModuleState := mkModule (RoundsNumber 1000000).
End Toy.

(** ** The Web Crypto algorithms the module names

    PBKDF2 with HMAC-SHA-256 (FIPS 180-4, RFC 2104, RFC 8018) and AES-256 in
    Galois/Counter Mode with a 128-bit tag (FIPS 197, NIST SP 800-38D),
    written out over bytes. Words and blocks are non-negative integers. *)
Module WebCrypto.

Definition be_value (bs : list Z) : Z := fold_left (fun acc b => acc * 256 + b) bs 0.

Fixpoint be_bytes (n : nat) (x : Z) : list Z :=
  match n with
  | O => []
  | S n' => be_bytes n' (x / 256) ++ [x mod 256]
  end.

Fixpoint chunks (fuel : nat) (size : nat) (bs : list Z) : list (list Z) :=
  match fuel, bs with
  | S fuel', _ :: _ => take size bs :: chunks fuel' size (drop size bs)
  | _, _ => []
  end.

Definition blocks_of (size : nat) (bs : list Z) : list (list Z) :=
  chunks (length bs) size bs.

Definition xor_bytes (a b : list Z) : list Z :=
  map (fun p => Z.lxor p.1 p.2) (combine a b).

(** *** SHA-256 *)

Definition mask32 : Z := 0xFFFFFFFF.
Definition add32 (x y : Z) : Z := Z.land (x + y) mask32.
Definition rotr (n x : Z) : Z :=
  Z.lor (Z.shiftr x n) (Z.land (Z.shiftl x (32 - n)) mask32).

Definition Ch (x y z : Z) : Z := Z.lxor (Z.land x y) (Z.land (Z.lxor x mask32) z).
Definition Maj (x y z : Z) : Z :=
  Z.lxor (Z.lxor (Z.land x y) (Z.land x z)) (Z.land y z).
Definition Sigma0 (x : Z) : Z := Z.lxor (Z.lxor (rotr 2 x) (rotr 13 x)) (rotr 22 x).
Definition Sigma1 (x : Z) : Z := Z.lxor (Z.lxor (rotr 6 x) (rotr 11 x)) (rotr 25 x).
Definition sigma0 (x : Z) : Z := Z.lxor (Z.lxor (rotr 7 x) (rotr 18 x)) (Z.shiftr x 3).
Definition sigma1 (x : Z) : Z := Z.lxor (Z.lxor (rotr 17 x) (rotr 19 x)) (Z.shiftr x 10).

(** The constants: the first 32 bits of the fractional parts of the square
    roots of the first eight primes, and of the cube roots of the first
    sixty-four. *)
Definition is_prime (n : Z) : bool :=
  forallb (fun d => negb (n mod d =? 0)) (map Z.of_nat (seq 2 (Z.to_nat n - 2))).

Definition first_primes (count : nat) : list Z :=
  take count (filter (fun n => is_prime n) (map Z.of_nat (seq 2 400))).

(** The integer part of a cube root, found bit by bit from the top. *)
Fixpoint cube_root_from (bits : nat) (n r : Z) : Z :=
  match bits with
  | O => r
  | S b =>
      let r' := r + 2 ^ Z.of_nat b in
      cube_root_from b n (if r' * r' * r' <=? n then r' else r)
  end.

Definition sha256_initial : list Z :=
  Eval vm_compute in
    map (fun p => Z.sqrt (p * 2 ^ 64) mod 2 ^ 32) (first_primes 8).

Definition sha256_K : list Z :=
  Eval vm_compute in
    map (fun p => cube_root_from 48 (p * 2 ^ 96) 0 mod 2 ^ 32) (first_primes 64).

(** The message schedule: [window] holds the last sixteen words. *)
Fixpoint schedule (n : nat) (window : list Z) : list Z :=
  match n, window with
  | S n', w16 :: rest =>
      let w := add32 (add32 (sigma1 (nth 14 window 0)) (nth 9 window 0))
                 (add32 (sigma0 (nth 1 window 0)) w16) in
      w :: schedule n' (rest ++ [w])
  | _, _ => []
  end.

Definition sha256_round (st : list Z) (kw : Z * Z) : list Z :=
  match st with
  | [a; b; c; d; e; f; g; h] =>
      let T1 := add32 (add32 (add32 h (Sigma1 e)) (add32 (Ch e f g) kw.1)) kw.2 in
      let T2 := add32 (Sigma0 a) (Maj a b c) in
      [add32 T1 T2; a; b; c; add32 d T1; e; f; g]
  | _ => st
  end.

Definition sha256_compress (hs : list Z) (block : list Z) : list Z :=
  let words := map be_value (blocks_of 4 block) in
  let W := words ++ schedule 48 words in
  map (fun p => add32 p.1 p.2)
    (combine hs (fold_left sha256_round (combine sha256_K W) hs)).

Definition sha256_pad (m : list Z) : list Z :=
  m ++ [0x80] ++ repeat 0 (Z.to_nat ((55 - Z.of_nat (length m)) mod 64))
    ++ be_bytes 8 (8 * Z.of_nat (length m)).

Definition sha256 (m : list Z) : list Z :=
  flat_map (be_bytes 4)
    (fold_left sha256_compress (blocks_of 64 (sha256_pad m)) sha256_initial).

(** *** HMAC and PBKDF2 *)

Definition hmac_sha256 (key message : list Z) : list Z :=
  let k := if (64 <? length key)%nat then sha256 key else key in
  let k := k ++ repeat 0 (64 - length k) in
  sha256 (map (Z.lxor 0x5C) k ++ sha256 (map (Z.lxor 0x36) k ++ message)).

(** One block of PBKDF2 output, which is all a 256-bit key takes. *)
Definition pbkdf2_sha256 (password salt : list Z) (iterations : Z) : list Z :=
  let u1 := hmac_sha256 password (salt ++ be_bytes 4 1) in
  snd (Z.iter (iterations - 1)
         (fun ut => let u := hmac_sha256 password ut.1 in (u, xor_bytes ut.2 u))
         (u1, u1)).

(** *** AES-256 *)

Definition xtime (b : Z) : Z :=
  if b <? 128 then 2 * b else Z.lxor (2 * b - 256) 0x1B.

(** Multiplication in the field of 256 elements, and the inverse, with 0
    for the inverse of 0. *)
Fixpoint gf8_mul_from (n : nat) (a b acc : Z) : Z :=
  match n with
  | O => acc
  | S n' =>
      gf8_mul_from n' (xtime a) (b / 2) (if Z.odd b then Z.lxor acc a else acc)
  end.

Definition gf8_mul (a b : Z) : Z := gf8_mul_from 8 a b 0.

Definition gf8_inverse (a : Z) : Z :=
  default 0 (head (filter (fun b => gf8_mul a b = 1) (map Z.of_nat (seq 1 255)))).

Definition rotl8 (n x : Z) : Z := (x * 2 ^ n) mod 256 + x / 2 ^ (8 - n).

(** The S-box: the inverse followed by the affine map. *)
Definition sbox : list Z :=
  Eval vm_compute in
    map (fun a =>
           let b := gf8_inverse a in
           Z.lxor (Z.lxor (Z.lxor b (rotl8 1 b)) (Z.lxor (rotl8 2 b) (rotl8 3 b)))
             (Z.lxor (rotl8 4 b) 0x63))
      (map Z.of_nat (seq 0 256)).

Definition sub_byte (b : Z) : Z := nth (Z.to_nat b) sbox 0.

(** The key schedule, four bytes a word: [prev] is the word before,
    [window] the last eight words, [i] the index of the word to come. *)
Fixpoint expand_key (n : nat) (i : Z) (rcon : Z) (window : list (list Z))
    : list (list Z) :=
  match n, window with
  | S n', w8 :: rest =>
      let prev := nth 6 rest [] in
      let temp :=
        if i mod 8 =? 0 then
          match map sub_byte prev with
          | [a; b; c; d] => [Z.lxor b rcon; c; d; a]
          | t => t
          end
        else if i mod 8 =? 4 then map sub_byte prev
        else prev in
      let w := xor_bytes w8 temp in
      w :: expand_key n' (i + 1) (if i mod 8 =? 0 then xtime rcon else rcon)
             (rest ++ [w])
  | _, _ => []
  end.

Definition round_keys (key : list Z) : list (list Z) :=
  let words := blocks_of 4 key in
  blocks_of 16 (concat (words ++ expand_key 52 8 1 words)).

Definition shift_rows (s : list Z) : list Z :=
  map (fun i => nth i s 0) [0; 5; 10; 15; 4; 9; 14; 3; 8; 13; 2; 7; 12; 1; 6; 11]%nat.

Definition mix_column (col : list Z) : list Z :=
  match col with
  | [a; b; c; d] =>
      [Z.lxor (Z.lxor (xtime a) (Z.lxor (xtime b) b)) (Z.lxor c d);
       Z.lxor (Z.lxor a (xtime b)) (Z.lxor (Z.lxor (xtime c) c) d);
       Z.lxor (Z.lxor a b) (Z.lxor (xtime c) (Z.lxor (xtime d) d));
       Z.lxor (Z.lxor (Z.lxor (xtime a) a) b) (Z.lxor c (xtime d))]
  | _ => col
  end.

Definition mix_columns (s : list Z) : list Z :=
  flat_map mix_column (blocks_of 4 s).

Definition aes_round (s : list Z) (rk : list Z) : list Z :=
  xor_bytes (mix_columns (shift_rows (map sub_byte s))) rk.

(** The forward cipher on one block, under the fifteen round keys. *)
Definition aes_block (rks : list (list Z)) (block : list Z) : list Z :=
  match rks with
  | rk0 :: rest =>
      let s := fold_left aes_round (take 13 rest) (xor_bytes block rk0) in
      xor_bytes (shift_rows (map sub_byte s)) (nth 13 rest [])
  | [] => block
  end.

(** *** Galois/Counter Mode *)

Definition gcm_R : Z := Z.shiftl 0xE1 120.

Fixpoint gf_mul_from (n : nat) (x v z : Z) : Z :=
  match n with
  | O => z
  | S n' =>
      gf_mul_from n' x
        (if Z.odd v then Z.lxor (Z.shiftr v 1) gcm_R else Z.shiftr v 1)
        (if Z.testbit x (Z.of_nat n') then Z.lxor z v else z)
  end.

Definition gf_mul (x y : Z) : Z := gf_mul_from 128 x y 0.

Definition pad16 (bs : list Z) : list Z :=
  bs ++ repeat 0 (Z.to_nat ((- Z.of_nat (length bs)) mod 16)).

Definition ghash (h : Z) (bs : list Z) : Z :=
  fold_left (fun y block => gf_mul (Z.lxor y (be_value block)) h) (blocks_of 16 bs) 0.

Definition inc32 (cb : Z) : Z :=
  (cb / 2 ^ 32) * 2 ^ 32 + (cb + 1) mod 2 ^ 32.

Fixpoint gctr (rks : list (list Z)) (cb : Z) (blocks : list (list Z)) : list Z :=
  match blocks with
  | [] => []
  | x :: rest =>
      xor_bytes x (aes_block rks (be_bytes 16 cb)) ++ gctr rks (inc32 cb) rest
  end.

Definition gcm_j0 (h : Z) (iv : list Z) : Z :=
  if (length iv =? 12)%nat then be_value iv * 2 ^ 32 + 1
  else ghash h (pad16 iv ++ be_bytes 16 (8 * Z.of_nat (length iv))).

Definition gcm_tag (rks : list (list Z)) (h j0 : Z) (c : list Z) : list Z :=
  let s := ghash h (pad16 c ++ be_bytes 8 0 ++ be_bytes 8 (8 * Z.of_nat (length c))) in
  xor_bytes (be_bytes 16 s) (aes_block rks (be_bytes 16 j0)).

Definition aes_gcm_encrypt (key iv data : list Z) : list Z :=
  let rks := round_keys key in
  let h := be_value (aes_block rks (repeat 0 16)) in
  let j0 := gcm_j0 h iv in
  let c := gctr rks (inc32 j0) (blocks_of 16 data) in
  c ++ gcm_tag rks h j0 c.

(** The plaintext, when the last sixteen bytes are the tag of the rest. *)
Definition aes_gcm_decrypt (key iv c : list Z) : option (list Z) :=
  let n := (length c - 16)%nat in
  let body := take n c in
  let rks := round_keys key in
  let h := be_value (aes_block rks (repeat 0 16)) in
  let j0 := gcm_j0 h iv in
  if bool_decide (drop n c = gcm_tag rks h j0 body) && (16 <=? length c)%nat
  then Some (gctr rks (inc32 j0) (blocks_of 16 body))
  else None.
(** *** The operations of [crypto.subtle] on these algorithms

    A base key is the raw key material, a derived key its 32 bytes. The
    iteration count arrives as a number, NaN included, and is taken as
    Node takes it, up to 2^31 - 1. Of a rejection only the fact is kept:
    each is given as the OperationError of the interface, but for the
    TypeError of a count that is no number. *)
Definition OperationError : thrown :=
  ErrorObj (js "OperationError")
    (js "The operation failed for an operation-specific reason").

Definition importKey (raw : list Z) : outcome (list Z) := Returned raw.

Definition deriveKey (salt : list Z) (n : option Z) (baseKey : list Z)
    : outcome (list Z) :=
  match n with
  | Some z =>
      if (0 <? z) && (z <? 2 ^ 31)
      then Returned (pbkdf2_sha256 baseKey salt z)
      else Threw OperationError
  | None => Threw (TypeError (js "Value is not of type 'unsigned long'"))
  end.

Definition encrypt (iv key data : list Z) : outcome (list Z) :=
  match iv with
  | [] => Threw OperationError
  | _ => Returned (aes_gcm_encrypt key iv data)
  end.

Definition decrypt (iv key c : list Z) : outcome (list Z) :=
  match iv, aes_gcm_decrypt key iv c with
  | _ :: _, Some data => Returned data
  | _, _ => Threw OperationError
  end.

(** Numbers and JSON are read as in [Toy]. *)
Definition platform : Platform := {|
  number := option Z;
  num_of_Z := Some;
  NaN := None;
  StringToNumber := Toy.string_to_number;
  BaseKey := list Z;
  CryptoKey := list Z;
  subtle_importKey := importKey;
  max_iterations := 2 ^ 31 - 1;
  subtle_deriveKey := deriveKey;
  subtle_encrypt := encrypt;
  subtle_decrypt := decrypt;
  JSON_parse := Toy.parse
|}.
End WebCrypto.

(** ** src/providers/doppler.ts *)

(** [import.meta.env[key]] as an expression: where [import.meta] is
    undefined the read of [env] fails, where only [import.meta.env] is
    undefined the read of [key] does. *)
Definition import_meta_env_get (key : jsstring) : Comp (option jsstring) :=
  fun w =>
    match import_meta_env w with
    | None => (Threw (reading_undefined (js "env")), w)
    | Some None => (Threw (reading_undefined key), w)
    | Some (Some l) => (Returned (get_property (kind_of w l) key (env_at w l)), w)
    end.

(** Truthiness of a string-or-undefined value: defined and not empty. *)
Definition truthy (v : option jsstring) : bool :=
  match v with
  | Some (_ :: _) => true
  | _ => false
  end.

(** [`${error.message || error}`]: the message, or [String(error)] when
    there is none; for an [Error] with an empty message that is its name. *)
Definition error_text (e : thrown) : jsstring :=
  match e with
  | ErrorObj name [] => name
  | ErrorObj _ m => m
  | NonError r => r
  end.

(** [URLSearchParams.prototype.set] and [Headers.prototype.set] on a list
    of pairs: the first pair of that name takes the value and the others
    of that name go; without one, the pair is appended. *)
Fixpoint pairs_set (name value : jsstring) (ps : list (jsstring * jsstring))
    : list (jsstring * jsstring) :=
  match ps with
  | [] => [(name, value)]
  | (n, v) :: ps' =>
      if bool_decide (n = name)
      then (name, value) :: filter (fun p => p.1 <> name) ps'
      else (n, v) :: pairs_set name value ps'
  end.

Definition ascii_lowercase (s : jsstring) : jsstring :=
  map (fun c => if (65 <=? c) && (c <=? 90) then c + 32 else c) s.

Definition is_http_whitespace (c : Z) : bool :=
  (c =? 9) || (c =? 10) || (c =? 13) || (c =? 32).

Fixpoint strip_leading (s : jsstring) : jsstring :=
  match s with
  | c :: s' => if is_http_whitespace c then strip_leading s' else s
  | [] => []
  end.

(** [headers.set(name, value)] for a valid name: the value is a byte
    string, normalized by stripping whitespace at both ends, and may hold
    no NUL, LF or CR; the name is kept in lower case. *)
Definition headers_set (name value : jsstring) (hs : list (jsstring * jsstring))
    : outcome (list (jsstring * jsstring)) :=
  if forallb (fun c => (0 <=? c) && (c <=? 255)) value then
    let v := rev (strip_leading (rev (strip_leading value))) in
    if forallb (fun c => negb ((c =? 0) || (c =? 10) || (c =? 13))) v
    then Returned (pairs_set (ascii_lowercase name) v hs)
    else Threw (TypeError (js "Invalid header value"))
  else Threw (TypeError (js "Cannot convert argument to a ByteString")).

(** A request as [fetch] receives it: the URL without its query, the
    query pairs in order, and the headers. *)
Record Request : Type := mkRequest {
  request_url : jsstring;
  request_query : list (jsstring * jsstring);
  request_headers : list (jsstring * jsstring) }.

Record Response (J : Type) : Type := mkResponse {
  response_ok : bool;
  response_status : nat;
  response_statusText : jsstring;
  response_json : outcome J }.
Arguments mkResponse {J} _ _ _ _.
Arguments response_ok {J} _.
Arguments response_status {J} _.
Arguments response_statusText {J} _.
Arguments response_json {J} _.

(** The network and the JSON values it delivers. [joined_messages data] is
    [data.messages ? data.messages.join(' ') : undefined], which throws
    when [data] is [null] or its [messages] cannot be joined. *)
Class Network : Type := {
  Json : Type;
  fetch : Request -> outcome (Response Json);
  joined_messages : Json -> outcome (option jsstring)
}.

(** [promise.then(f)] and [promise.catch(h)] on settled promises. *)
Definition promise_then {A B} (p : outcome A) (f : A -> outcome B) : outcome B :=
  match p with
  | Returned a => f a
  | Threw e => Threw e
  end.

Definition promise_catch {A} (p : outcome A) (h : thrown -> outcome A) : outcome A :=
  match p with
  | Returned a => Returned a
  | Threw e => h e
  end.

Record FetchArgs : Type := mkFetchArgs {
  dopplerToken : option jsstring;
  dopplerProject : option jsstring;
  dopplerConfig : option jsstring }.

Definition DOPPLER_TOKEN_VAR : jsstring := js "DOPPLER_TOKEN".
Definition DOPPLER_URL : jsstring :=
  js "https://api.doppler.com/v3/configs/config/secrets/download".
Definition DOPPLER_PREFIX : jsstring := js "Doppler API Error: ".

Definition token_required : thrown :=
  JsError (js "Doppler API Error: The 'DOPPLER_TOKEN' environment variable is required").

(** [process.env.DOPPLER_TOKEN || import.meta.env.DOPPLER_TOKEN] *)
Definition default_token : Comp (option jsstring) :=
  v <- process_env_get DOPPLER_TOKEN_VAR ;;
  if truthy v then ret v else import_meta_env_get DOPPLER_TOKEN_VAR.

Definition status_line {J} (response : Response J) : jsstring :=
  decimal_of_nat (response_status response) ++ 32 :: response_statusText response.

Section Doppler.
Context {N : Network}.

(** The handler of the first [then]: the body of an ok response, and for
    any other response the rejection of the inner [catch], which replaces
    whatever the inner [then] threw. *)
Definition on_response (response : Response Json) : outcome Json :=
  if response_ok response then response_json response
  else
    promise_catch
      (promise_then (response_json response)
         (fun data =>
            match joined_messages data with
            | Returned m =>
                Threw (JsError (DOPPLER_PREFIX ++ default (status_line response) m))
            | Threw e => Threw e
            end))
      (fun _ => Threw (JsError (DOPPLER_PREFIX ++ status_line response))).

(** The result, and the requests that were sent. *)
Definition fetchSecrets (args : FetchArgs) (w : World)
    : outcome Json * list Request :=
  match (match dopplerToken args with
         | Some t => ret (Some t)
         | None => default_token
         end) w with
  | (Threw e, _) => (Threw e, [])
  | (Returned token, _) =>
      if negb (truthy token) then (Threw token_required, [])
      else
        let query := pairs_set (js "format") (js "json") [] in
        let query :=
          if truthy (dopplerProject args)
          then pairs_set (js "project") (default [] (dopplerProject args)) query
          else query in
        let query :=
          if truthy (dopplerConfig args)
          then pairs_set (js "config") (default [] (dopplerConfig args)) query
          else query in
        match
          promise_then
            (headers_set (js "Authorization") (js "Bearer " ++ default [] token) [])
            (headers_set (js "user-agent") (js "@jacobwolf/gitoops-secrets"))
        with
        | Threw e => (Threw e, [])
        | Returned headers =>
            let request := mkRequest DOPPLER_URL query headers in
            (promise_catch
               (promise_then (fetch request) on_response)
               (fun error => Threw (JsError (DOPPLER_PREFIX ++ error_text error))),
             [request])
        end
  end.
End Doppler.

(** A small network for running [fetchSecrets]: JSON values are an optional
    message text; requests carrying the token [good] get an ok response and
    any other a 401 whose body holds a message. *)
Module ToyNet.
Definition network : Network := {|
  Json := option jsstring;
  fetch := fun request =>
    if bool_decide ((js "authorization", js "Bearer good") ∈ request_headers request)
    then Returned (mkResponse true 200 (js "OK") (Returned None))
    else Returned (mkResponse false 401 (js "Unauthorized")
                     (Returned (Some (js "Invalid authentication credentials"))));
  joined_messages := fun data => Returned data
|}.
End ToyNet.

(** * Proofs *)

(** ** Arithmetic tests *)

(** Quotients and remainders by constants are handed to [lia] as their
    defining equations. *)
Ltac Zify.zify_post_hook ::= Z.to_euclidean_division_equations.

(** Settles the next comparison of the goal by linear arithmetic. *)
Ltac settle_test :=
  match goal with
  | |- context [Z.leb ?a ?b] =>
      first [ replace (Z.leb a b) with true by (symmetry; apply Z.leb_le; lia)
            | replace (Z.leb a b) with false by (symmetry; apply Z.leb_gt; lia) ]
  | |- context [Z.ltb ?a ?b] =>
      first [ replace (Z.ltb a b) with true by (symmetry; apply Z.ltb_lt; lia)
            | replace (Z.ltb a b) with false by (symmetry; apply Z.ltb_ge; lia) ]
  | |- context [Z.eqb ?a ?b] =>
      first [ replace (Z.eqb a b) with true by (symmetry; apply Z.eqb_eq; lia)
            | replace (Z.eqb a b) with false by (symmetry; apply Z.eqb_neq; lia) ]
  end.

Ltac settle_tests := repeat (settle_test; cbn [andb orb negb]).

(** ** Base64 *)

Definition is_sextet (i : Z) : Prop := 0 <= i < 64.

Lemma list_ind3 {A} (Q : list A -> Prop) :
  Q [] -> (forall a, Q [a]) -> (forall a b, Q [a; b]) ->
  (forall a b c l, Q l -> Q (a :: b :: c :: l)) ->
  forall l, Q l.
Proof.
  intros H0 H1 H2 H3.
  assert (H : forall l, Q l /\ (forall a, Q (a :: l)) /\ (forall a b, Q (a :: b :: l))).
  { induction l as [|x l (IH0 & IH1 & IH2)]; repeat split; auto. }
  intros l. apply H.
Qed.

Lemma Forall_mapped {A B} (Q1 : A -> Prop) (Q2 : B -> Prop) (f : A -> B) l :
  (forall x, Q1 x -> Q2 (f x)) -> Forall Q1 l -> Forall Q2 (map f l).
Proof.
  intros Hf. induction 1; cbn; [apply List.Forall_nil | apply List.Forall_cons]; auto.
Qed.

Lemma b64_index_char i : is_sextet i -> b64_index (b64_char i) = Some i.
Proof.
  unfold is_sextet, b64_index, b64_char. intros Hi.
  destruct (Z.ltb_spec i 26); [settle_tests; f_equal; lia|].
  destruct (Z.ltb_spec i 52); [settle_tests; f_equal; lia|].
  destruct (Z.ltb_spec i 62); [settle_tests; f_equal; lia|].
  destruct (Z.eqb_spec i 62); [subst; reflexivity|].
  replace i with 63 by lia. reflexivity.
Qed.

Lemma b64_char_plain i :
  is_sextet i ->
  b64_char i <> 61 /\ b64_char i <> COLON /\ is_ascii_whitespace (b64_char i) = false.
Proof.
  unfold is_sextet, b64_char, COLON, is_ascii_whitespace. intros Hi.
  destruct (Z.ltb_spec i 26); [repeat split; try lia; settle_tests; reflexivity|].
  destruct (Z.ltb_spec i 52); [repeat split; try lia; settle_tests; reflexivity|].
  destruct (Z.ltb_spec i 62); [repeat split; try lia; settle_tests; reflexivity|].
  destruct (Z.eqb_spec i 62); repeat split; try lia; reflexivity.
Qed.

Lemma sextets_in_range bs :
  Forall is_byte bs -> Forall is_sextet (sextets_of_bytes bs).
Proof.
  induction bs as [|a|a b|a b c l IH] using list_ind3; intros Hb;
    repeat match goal with H : Forall _ (_ :: _) |- _ => inversion_clear H end;
    cbn [sextets_of_bytes];
    repeat (apply List.Forall_cons; [unfold is_byte, is_sextet in *; lia|]);
    first [apply List.Forall_nil | auto].
Qed.

Lemma bytes_of_sextets_of_bytes bs :
  Forall is_byte bs -> bytes_of_sextets (sextets_of_bytes bs) = bs.
Proof.
  induction bs as [|a|a b|a b c l IH] using list_ind3; intros Hb;
    repeat match goal with H : Forall _ (_ :: _) |- _ => inversion_clear H end;
    cbn [sextets_of_bytes bytes_of_sextets]; unfold is_byte in *.
  - reflexivity.
  - f_equal. lia.
  - f_equal; [lia|]. f_equal. lia.
  - rewrite IH by assumption. f_equal; [lia|]. f_equal; [lia|]. f_equal. lia.
Qed.

Lemma indices_of_chars l :
  Forall is_sextet l -> indices_of (map b64_char l) = Some l.
Proof.
  induction 1 as [|i l Hi _ IH]; [reflexivity|].
  cbn [map indices_of]. now rewrite b64_index_char, IH.
Qed.

(** The shape of an encoding: how many characters, and which padding. *)
Lemma sextets_shape bs :
  exists k : nat,
    (length (sextets_of_bytes bs) + length (b64_padding (length bs)) = 4 * k)%nat
    /\ (length (b64_padding (length bs)) + length (b64_padding (length bs))
        + length (sextets_of_bytes bs) mod 4 <> 1)%nat
    /\ (length (sextets_of_bytes bs) mod 4 <> 1)%nat.
Proof.
  induction bs as [|a|a b|a b c l (k & IH1 & IH2 & IH3)] using list_ind3.
  - exists 0%nat. cbn. lia.
  - exists 1%nat. cbn. lia.
  - exists 1%nat. cbn. lia.
  - exists (S k). cbn [sextets_of_bytes length].
    replace (b64_padding (S (S (S (length l))))) with (b64_padding (length l)).
    + replace (S (S (S (S (length (sextets_of_bytes l))))))
        with (length (sextets_of_bytes l) + 1 * 4)%nat by lia.
      rewrite Nat.Div0.mod_add. lia.
    + unfold b64_padding.
      replace (S (S (S (length l)))) with (length l + 1 * 3)%nat by lia.
      now rewrite Nat.Div0.mod_add.
Qed.

Lemma b64_padding_cases n :
  b64_padding n = [] \/ b64_padding n = [61] \/ b64_padding n = [61; 61].
Proof.
  unfold b64_padding. destruct (n mod 3)%nat as [|[|[|?]]]; auto.
Qed.

Lemma strip_padding_encoded body pad :
  Forall (fun c => c <> 61) body ->
  pad = [] \/ pad = [61] \/ pad = [61; 61] ->
  Z.of_nat (length (body ++ pad)) mod 4 = 0 ->
  strip_padding (body ++ pad) = body.
Proof.
  intros Hbody Hpad Hlen. unfold strip_padding.
  rewrite Hlen. cbn [Z.eqb]. rewrite rev_app_distr.
  apply Forall_rev in Hbody.
  destruct Hpad as [-> | [-> | ->]]; cbn [rev app].
  - rewrite app_nil_r. destruct (rev body) as [|x r] eqn:E; [reflexivity|].
    inversion_clear Hbody.
    destruct (Z.eq_dec x 61); [contradiction|].
    destruct x as [|p|p]; try reflexivity.
    repeat (destruct p as [p|p|]; try reflexivity). contradiction.
  - destruct (rev body) as [|x r] eqn:E.
    + apply (f_equal (@rev Z)) in E. rewrite rev_involutive in E. now subst.
    + inversion_clear Hbody.
      destruct x as [|p|p]; try (rewrite <- E; apply rev_involutive).
      repeat (destruct p as [p|p|]; try (rewrite <- E; apply rev_involutive)).
      contradiction.
  - apply rev_involutive.
Qed.

Lemma filter_all {A} (f : A -> bool) l :
  Forall (fun x => f x = true) l -> filter f l = l.
Proof.
  induction 1 as [|x l Hx _ IH]; [reflexivity|].
  cbn. rewrite Hx. now f_equal.
Qed.

(** Decoding the characters of any 6-bit groups, padded as an encoding
    is: the unused low bits of a final group need not be zero. *)
Lemma atob_sextets sx pad k :
  Forall is_sextet sx ->
  pad = [] \/ pad = [61] \/ pad = [61; 61] ->
  (length sx + length pad = 4 * k)%nat ->
  (length sx mod 4 <> 1)%nat ->
  atob (map b64_char sx ++ pad) = Returned (bytes_of_sextets sx).
Proof.
  intros Hs Hpad Hk Hm. unfold atob.
  rewrite filter_all.
  2:{ apply Forall_app. split.
      - apply (Forall_mapped is_sextet); [|exact Hs].
        intros i Hi. now destruct (b64_char_plain i Hi) as (_ & _ & ->).
      - destruct Hpad as [-> | [-> | ->]]; repeat constructor. }
  rewrite strip_padding_encoded.
  - rewrite length_map.
    replace (Z.of_nat (length sx) mod 4 =? 1) with false.
    + now rewrite indices_of_chars by assumption.
    + symmetry. apply Z.eqb_neq. intros E. apply Hm.
      apply Nat2Z.inj. rewrite Nat2Z.inj_mod. exact E.
  - apply (Forall_mapped is_sextet); [|exact Hs].
    intros i Hi. now destruct (b64_char_plain i Hi) as (? & _).
  - exact Hpad.
  - rewrite length_app, length_map, Hk, Nat2Z.inj_mul.
    rewrite Z.mul_comm. apply Z.mod_mul. lia.
Qed.

Lemma atob_base64_encode bs :
  Forall is_byte bs -> atob (base64_encode bs) = Returned bs.
Proof.
  intros Hb. unfold base64_encode.
  destruct (sextets_shape bs) as (k & Hk & _ & Hm).
  rewrite (atob_sextets _ _ k); try assumption.
  - now rewrite bytes_of_sextets_of_bytes.
  - now apply sextets_in_range.
  - apply b64_padding_cases.
Qed.

Lemma base64_encode_no_colon bs :
  Forall is_byte bs -> Forall (fun c => c <> COLON) (base64_encode bs).
Proof.
  intros Hb. unfold base64_encode. apply Forall_app. split.
  - apply (Forall_mapped is_sextet); [|exact (sextets_in_range bs Hb)].
    intros i Hi. now destruct (b64_char_plain i Hi) as (_ & ? & _).
  - destruct (b64_padding_cases (length bs)) as [-> | [-> | ->]];
      repeat constructor; unfold COLON; lia.
Qed.

Lemma btoa_bytes bs : Forall is_byte bs -> btoa bs = Returned (base64_encode bs).
Proof.
  intros Hb. unfold btoa.
  replace (forallb _ bs) with true; [reflexivity|].
  symmetry. apply forallb_forall. intros b Hin.
  rewrite Forall_forall in Hb. apply list_elem_of_In in Hin.
  specialize (Hb b Hin). unfold is_byte in Hb.
  apply andb_true_intro. split; [apply Z.leb_le | apply Z.leb_le]; lia.
Qed.

Lemma map_mod_bytes bs : Forall is_byte bs -> map (fun c => c mod 256) bs = bs.
Proof.
  induction 1 as [|b l Hb _ IH]; [reflexivity|].
  cbn. rewrite IH. f_equal. apply Z.mod_small. exact Hb.
Qed.

Lemma base64_roundtrip bs :
  Forall is_byte bs -> base64ToUint8Array (base64_encode bs) = Returned bs.
Proof.
  intros Hb. unfold base64ToUint8Array.
  now rewrite atob_base64_encode, map_mod_bytes.
Qed.

(** ** One character of an encoding replaced *)






(** ** UTF-8 and UTF-16 *)

Definition is_scalar (c : Z) : Prop :=
  0 <= c < 0x110000 /\ ~ (0xD800 <= c <= 0xDFFF).

(** No lone surrogate: every high surrogate is followed by a low one, and a
    low surrogate only occurs there. *)
Fixpoint well_formed (s : jsstring) : bool :=
  match s with
  | [] => true
  | c :: s' =>
      if is_high_surrogate c then
        match s' with
        | d :: s'' => is_low_surrogate d && well_formed s''
        | [] => false
        end
      else negb (is_low_surrogate c) && well_formed s'
  end.

Lemma list_ind2 {A} (Q : list A -> Prop) :
  Q [] -> (forall a, Q [a]) -> (forall a b l, Q l -> Q (b :: l) -> Q (a :: b :: l)) ->
  forall l, Q l.
Proof.
  intros H0 H1 H2.
  assert (H : forall l, Q l /\ forall a, Q (a :: l)).
  { induction l as [|x l [IH0 IH1]]; split; auto. }
  intros l. apply H.
Qed.

Lemma decode_at_lead b bs :
  utf8_decode_from utf8_initial (b :: bs)
  = fst (utf8_lead b) ++ utf8_decode_from (snd (utf8_lead b)) bs.
Proof. cbn. now destruct (utf8_lead b). Qed.

Lemma decode_last cp lo hi b bs :
  lo <= b <= hi ->
  utf8_decode_from (mkUtf8 1 cp lo hi) (b :: bs)
  = cp * 64 + b mod 64 :: utf8_decode_from utf8_initial bs.
Proof.
  intros Hb. cbn [utf8_decode_from bytes_needed lower_boundary upper_boundary code_point].
  now settle_tests.
Qed.

Lemma decode_continue k cp lo hi b bs :
  lo <= b <= hi ->
  utf8_decode_from (mkUtf8 (S (S k)) cp lo hi) (b :: bs)
  = utf8_decode_from (mkUtf8 (S k) (cp * 64 + b mod 64) 0x80 0xBF) bs.
Proof.
  intros Hb. cbn [utf8_decode_from bytes_needed lower_boundary upper_boundary code_point].
  now settle_tests.
Qed.

Lemma utf8_decode_encode_cp c rest :
  is_scalar c ->
  utf8_decode_from utf8_initial (utf8_encode_cp c ++ rest)
  = c :: utf8_decode_from utf8_initial rest.
Proof.
  intros [Hc Hs]. unfold utf8_encode_cp.
  destruct (Z.ltb_spec c 0x80).
  { cbn [app]. rewrite decode_at_lead. unfold utf8_lead. now settle_tests. }
  destruct (Z.ltb_spec c 0x800).
  { cbn [app]. rewrite decode_at_lead. unfold utf8_lead. settle_tests.
    cbn [fst snd app]. rewrite decode_last by lia. f_equal. lia. }
  destruct (Z.ltb_spec c 0x10000).
  { cbn [app]. rewrite decode_at_lead. unfold utf8_lead. settle_tests.
    cbn [fst snd app].
    destruct (Z.eqb_spec (0xE0 + c / 4096) 0xE0);
      destruct (Z.eqb_spec (0xE0 + c / 4096) 0xED);
      (rewrite decode_continue by lia); (rewrite decode_last by lia);
      f_equal; lia. }
  cbn [app]. rewrite decode_at_lead. unfold utf8_lead. settle_tests.
  cbn [fst snd app].
  destruct (Z.eqb_spec (0xF0 + c / 262144) 0xF0);
    destruct (Z.eqb_spec (0xF0 + c / 262144) 0xF4);
    (rewrite decode_continue by lia); (rewrite decode_continue by lia);
    (rewrite decode_last by lia); f_equal; lia.
Qed.

Lemma utf8_decode_encode cps :
  Forall is_scalar cps ->
  utf8_decode_from utf8_initial (flat_map utf8_encode_cp cps) = cps.
Proof.
  induction 1 as [|c l Hc _ IH]; [reflexivity|].
  cbn [flat_map]. now rewrite utf8_decode_encode_cp, IH.
Qed.

Lemma utf8_encode_cp_bytes c : is_scalar c -> Forall is_byte (utf8_encode_cp c).
Proof.
  intros [Hc _]. unfold utf8_encode_cp, is_byte.
  destruct (Z.ltb_spec c 0x80); [|destruct (Z.ltb_spec c 0x800);
    [|destruct (Z.ltb_spec c 0x10000)]];
    repeat (apply List.Forall_cons; [lia|]); apply List.Forall_nil.
Qed.

Lemma surrogate_tests c :
  (is_high_surrogate c = true <-> 0xD800 <= c <= 0xDBFF)
  /\ (is_low_surrogate c = true <-> 0xDC00 <= c <= 0xDFFF).
Proof.
  unfold is_high_surrogate, is_low_surrogate.
  rewrite !andb_true_iff, !Z.leb_le. tauto.
Qed.

Lemma not_surrogate c :
  is_high_surrogate c = false -> is_low_surrogate c = false ->
  ~ (0xD800 <= c <= 0xDFFF).
Proof.
  unfold is_high_surrogate, is_low_surrogate.
  rewrite !andb_false_iff, !Z.leb_gt. lia.
Qed.

Lemma scalar_values_scalar s :
  Forall is_code_unit s -> Forall is_scalar (scalar_values s).
Proof.
  assert (Hrep : is_scalar 0xFFFD) by (unfold is_scalar; lia).
  induction s as [|c|c d l IH0 IH1] using list_ind2; intros Hs.
  - apply List.Forall_nil.
  - inversion_clear Hs as [|? ? Hc _]. cbn [scalar_values].
    destruct (is_high_surrogate c) eqn:Eh;
      [apply List.Forall_cons; [exact Hrep | apply List.Forall_nil]|].
    destruct (is_low_surrogate c) eqn:El;
      [apply List.Forall_cons; [exact Hrep | apply List.Forall_nil]|].
    apply List.Forall_cons; [|apply List.Forall_nil].
    split; [unfold is_code_unit in Hc; lia | now apply not_surrogate].
  - inversion Hs as [|? ? Hc Hs']; subst. inversion Hs' as [|? ? Hd Hl]; subst.
    change (scalar_values (c :: d :: l)) with
      (if is_high_surrogate c then
         if is_low_surrogate d
         then 0x10000 + (c - 0xD800) * 0x400 + (d - 0xDC00) :: scalar_values l
         else 0xFFFD :: scalar_values (d :: l)
       else if is_low_surrogate c then 0xFFFD :: scalar_values (d :: l)
       else c :: scalar_values (d :: l)).
    destruct (surrogate_tests c) as [H1 H2]. destruct (surrogate_tests d) as [H3 H4].
    destruct (is_high_surrogate c) eqn:Eh.
    + destruct (is_low_surrogate d) eqn:El.
      * apply List.Forall_cons; [|auto].
        assert (0xD800 <= c <= 0xDBFF) by now apply H1.
        assert (0xDC00 <= d <= 0xDFFF) by now apply H4.
        unfold is_scalar. lia.
      * apply List.Forall_cons; auto.
    + destruct (is_low_surrogate c) eqn:El; apply List.Forall_cons; auto.
      split; [unfold is_code_unit in Hc; lia | now apply not_surrogate].
Qed.

Lemma TextEncoder_encode_bytes s :
  Forall is_code_unit s -> Forall is_byte (TextEncoder_encode s).
Proof.
  intros Hs. unfold TextEncoder_encode.
  induction (scalar_values_scalar s Hs) as [|c l Hc _ IH]; [apply List.Forall_nil|].
  cbn [flat_map]. apply Forall_app. split; [now apply utf8_encode_cp_bytes | exact IH].
Qed.

(** A well-formed string is the UTF-16 form of its scalar values. *)
Lemma utf16_units_scalar_values s :
  Forall is_code_unit s -> well_formed s = true ->
  flat_map utf16_units (scalar_values s) = s.
Proof.
  induction s as [|c|c d l IH0 IH1] using list_ind2; intros Hs Hwf.
  - reflexivity.
  - cbn [well_formed scalar_values] in *.
    destruct (is_high_surrogate c) eqn:Eh; [discriminate|].
    destruct (is_low_surrogate c) eqn:El; [discriminate|].
    inversion_clear Hs as [|? ? Hc _]. unfold is_code_unit in Hc.
    cbn [flat_map app]. unfold utf16_units. now settle_tests.
  - inversion Hs as [|? ? Hc Hs']; subst. inversion Hs' as [|? ? Hd Hl]; subst.
    change (scalar_values (c :: d :: l)) with
      (if is_high_surrogate c then
         if is_low_surrogate d
         then 0x10000 + (c - 0xD800) * 0x400 + (d - 0xDC00) :: scalar_values l
         else 0xFFFD :: scalar_values (d :: l)
       else if is_low_surrogate c then 0xFFFD :: scalar_values (d :: l)
       else c :: scalar_values (d :: l)).
    change (well_formed (c :: d :: l)) with
      (if is_high_surrogate c then is_low_surrogate d && well_formed l
       else negb (is_low_surrogate c) && well_formed (d :: l)) in Hwf.
    destruct (surrogate_tests c) as [H1 H2]. destruct (surrogate_tests d) as [H3 H4].
    destruct (is_high_surrogate c) eqn:Eh.
    + apply andb_true_iff in Hwf as [El Hwf]. rewrite El.
      assert (0xD800 <= c <= 0xDBFF) by now apply H1.
      assert (0xDC00 <= d <= 0xDFFF) by now apply H4.
      cbn [flat_map]. rewrite IH0 by assumption.
      unfold utf16_units. settle_tests. cbn [app]. f_equal; [lia|]. f_equal. lia.
    + apply andb_true_iff in Hwf as [El Hwf].
      apply negb_true_iff in El. rewrite El.
      cbn [flat_map]. rewrite IH1 by assumption.
      unfold is_code_unit in Hc. unfold utf16_units. now settle_tests.
Qed.

Lemma utf8_decode_bytes_of_string s :
  Forall is_code_unit s -> well_formed s = true ->
  flat_map utf16_units
    (utf8_decode_from utf8_initial (TextEncoder_encode s)) = s.
Proof.
  intros Hs Hwf. unfold TextEncoder_encode.
  rewrite utf8_decode_encode by now apply scalar_values_scalar.
  now apply utf16_units_scalar_values.
Qed.

(** The encoding starts with EF BB BF exactly when the string starts with
    U+FEFF. *)
Lemma skip_bom_encode_cp c rest :
  is_scalar c -> c <> 0xFEFF ->
  skip_bom (utf8_encode_cp c ++ rest) = utf8_encode_cp c ++ rest.
Proof.
  intros [Hc Hs] Hne. unfold utf8_encode_cp.
  destruct (Z.ltb_spec c 0x80).
  { cbn [app]. unfold skip_bom.
    destruct c as [|p|p]; try reflexivity.
    assert (Hp : Z.pos p <> 0xEF) by lia.
    destruct (Z.eq_dec (Z.pos p) 0xEF) as [E|E]; [contradiction|].
    clear - E. repeat (destruct p as [p|p|]; try reflexivity). contradiction. }
  assert (Hgen : forall b l, b <> 0xEF -> skip_bom (b :: l) = b :: l).
  { intros b l Hb. unfold skip_bom.
    destruct b as [|p|p]; try reflexivity.
    repeat (destruct p as [p|p|]; try reflexivity). contradiction. }
  destruct (Z.ltb_spec c 0x800); [cbn [app]; apply Hgen; lia|].
  destruct (Z.ltb_spec c 0x10000); [|cbn [app]; apply Hgen; lia].
  cbn [app]. destruct (Z.eq_dec (0xE0 + c / 4096) 0xEF) as [E1|E1]; [|now apply Hgen].
  rewrite E1.
  assert (Hgen2 : forall b l, b <> 0xBB -> skip_bom (0xEF :: b :: l) = 0xEF :: b :: l).
  { intros b l Hb. unfold skip_bom.
    destruct b as [|p|p]; try reflexivity.
    repeat (destruct p as [p|p|]; try reflexivity). contradiction. }
  destruct (Z.eq_dec (0x80 + (c / 64) mod 64) 0xBB) as [E2|E2]; [|now apply Hgen2].
  rewrite E2.
  assert (Hgen3 : forall b l, b <> 0xBF ->
            skip_bom (0xEF :: 0xBB :: b :: l) = 0xEF :: 0xBB :: b :: l).
  { intros b l Hb. unfold skip_bom.
    destruct b as [|p|p]; try reflexivity.
    repeat (destruct p as [p|p|]; try reflexivity). contradiction. }
  apply Hgen3. lia.
Qed.

Lemma scalar_values_head c s :
  Forall is_code_unit (c :: s) -> well_formed (c :: s) = true -> c <> 0xFEFF ->
  exists c' l, scalar_values (c :: s) = c' :: l /\ c' <> 0xFEFF.
Proof.
  intros Hs Hwf Hne. inversion_clear Hs as [|? ? Hc Hs'].
  destruct (surrogate_tests c) as [H1 _].
  cbn [scalar_values well_formed] in *.
  destruct (is_high_surrogate c) eqn:Eh.
  - destruct s as [|d s']; [discriminate|].
    apply andb_true_iff in Hwf as [El _]. rewrite El.
    destruct (surrogate_tests d) as [_ H4].
    assert (0xD800 <= c <= 0xDBFF) by now apply H1.
    assert (0xDC00 <= d <= 0xDFFF) by now apply H4.
    eexists _, _. split; [reflexivity|]. lia.
  - apply andb_true_iff in Hwf as [El _]. apply negb_true_iff in El. rewrite El.
    eexists _, _. split; [reflexivity|]. exact Hne.
Qed.

(** Decoding the encoding of a well-formed string gives the string back,
    unless it starts with U+FEFF. *)
Lemma text_roundtrip s :
  Forall is_code_unit s -> well_formed s = true -> head s <> Some 0xFEFF ->
  TextDecoder_decode (TextEncoder_encode s) = s.
Proof.
  intros Hs Hwf Hhd. unfold TextDecoder_decode.
  replace (skip_bom (TextEncoder_encode s)) with (TextEncoder_encode s).
  { now apply utf8_decode_bytes_of_string. }
  destruct s as [|c s]; [reflexivity|].
  destruct (scalar_values_head c s Hs Hwf) as (c' & l & E & Hne).
  { intros ->. now apply Hhd. }
  pose proof (scalar_values_scalar _ Hs) as Hsc.
  unfold TextEncoder_encode. rewrite E in *. cbn [flat_map].
  inversion_clear Hsc. symmetry. now apply skip_bom_encode_cp.
Qed.

(** A leading U+FEFF is dropped, and only that one. *)
Lemma text_roundtrip_bom s :
  Forall is_code_unit s -> well_formed s = true ->
  TextDecoder_decode (TextEncoder_encode (0xFEFF :: s)) = s.
Proof.
  intros Hs Hwf. unfold TextDecoder_decode.
  change (TextEncoder_encode (0xFEFF :: s))
    with (0xEF :: 0xBB :: 0xBF :: TextEncoder_encode s).
  cbn [skip_bom]. now apply utf8_decode_bytes_of_string.
Qed.

(** ** Splitting and numerals *)

Lemma split_on_plain sep a :
  Forall (fun c => c <> sep) a -> split_on sep a = [a].
Proof.
  induction 1 as [|c l Hc _ IH]; [reflexivity|].
  cbn [split_on]. rewrite IH.
  now replace (c =? sep) with false by (symmetry; now apply Z.eqb_neq).
Qed.

Lemma split_on_segment sep a rest :
  Forall (fun c => c <> sep) a ->
  split_on sep (a ++ sep :: rest) = a :: split_on sep rest.
Proof.
  induction 1 as [|c l Hc _ IH]; cbn [app split_on].
  - now rewrite Z.eqb_refl.
  - rewrite IH.
    now replace (c =? sep) with false by (symmetry; now apply Z.eqb_neq).
Qed.

Lemma split_on_length sep s :
  length (split_on sep s) = S (count_occ Z.eq_dec s sep).
Proof.
  induction s as [|c s IH]; [reflexivity|].
  cbn [split_on count_occ]. destruct (Z.eqb_spec c sep) as [E|E].
  - destruct (Z.eq_dec c sep); [|contradiction]. cbn [length]. now rewrite IH.
  - destruct (Z.eq_dec c sep); [contradiction|].
    destruct (split_on sep s); cbn [length] in *; lia.
Qed.

Lemma digit_cases c :
  is_digit c = true ->
  c = 48 \/ c = 49 \/ c = 50 \/ c = 51 \/ c = 52 \/ c = 53 \/ c = 54 \/ c = 55
  \/ c = 56 \/ c = 57.
Proof.
  unfold is_digit. rewrite andb_true_iff, !Z.leb_le. lia.
Qed.

Lemma leading_digits_all s : forallb is_digit s = true -> leading_digits s = s.
Proof.
  induction s as [|c s IH]; [reflexivity|].
  cbn [forallb leading_digits]. rewrite andb_true_iff. intros [-> Hs].
  now rewrite IH.
Qed.

Lemma digits_no_colon s :
  forallb is_digit s = true -> Forall (fun c => c <> COLON) s.
Proof.
  induction s as [|c s IH]; [intros; apply List.Forall_nil|].
  cbn [forallb]. rewrite andb_true_iff. intros [Hc Hs].
  apply List.Forall_cons; [|auto].
  unfold is_digit in Hc. rewrite andb_true_iff, !Z.leb_le in Hc.
  unfold COLON. lia.
Qed.

Section Numerals.
Context {P : Platform}.

Lemma parseInt10_digits s :
  s <> [] -> forallb is_digit s = true ->
  parseInt10 s = num_of_Z (digits_value s).
Proof.
  intros Hne Hd. destruct s as [|c s]; [contradiction|].
  pose proof (leading_digits_all _ Hd) as Hl.
  cbn [forallb] in Hd. apply andb_true_iff in Hd as [Hc Hs].
  unfold parseInt10.
  destruct (digit_cases c Hc) as [->|[->|[->|[->|[->|[->|[->|[->|[->| ->]]]]]]]]];
    cbn [trim_start];
    match goal with
    | |- context [is_js_whitespace ?d] => change (is_js_whitespace d) with false
    end;
    cbv beta iota; rewrite Hl; f_equal; lia.
Qed.
End Numerals.

(** The rounds settings for which the envelope records the iteration count
    that was used: the built-in default, or a short decimal numeral from 1
    to the largest iteration count the host takes. *)
Definition plain_rounds {P : Platform} (r : rounds_value) : Prop :=
  match r with
  | RoundsNumber n => n = 1000000
  | RoundsText s =>
      s <> [] /\ forallb is_digit s = true /\ (length s <= 15)%nat
      /\ 0 < digits_value s <= max_iterations
  end.

Definition rounds_count (r : rounds_value) : Z :=
  match r with
  | RoundsNumber n => n
  | RoundsText s => digits_value s
  end.

Section PlainRounds.
Context {P : Platform} {L : PlatformLaws P}.

Lemma plain_rounds_spec r :
  plain_rounds r ->
  rounds_number r = num_of_Z (rounds_count r)
  /\ parseInt10 (rounds_text r) = num_of_Z (rounds_count r)
  /\ 0 < rounds_count r <= max_iterations
  /\ Forall (fun c => c <> COLON) (rounds_text r).
Proof.
  destruct r as [s|n]; cbn [plain_rounds rounds_number rounds_count rounds_text].
  - intros (Hne & Hd & Hlen & Hv). repeat split; try lia.
    + now apply StringToNumber_decimal.
    + now apply parseInt10_digits.
    + now apply digits_no_colon.
  - intros ->. pose proof default_iterations_taken as Hmax.
    split; [reflexivity|]. split; [reflexivity|]. split; [lia|].
    apply digits_no_colon. vm_compute. reflexivity.
Qed.
End PlainRounds.

(** ** Worlds and the passphrase *)

Definition passphrase_in (w : World) (p : jsstring) : Prop :=
  exists l, process_env w = Some (Some l) /\ env_at w l !! MASTER_KEY_VAR = Some p.

(** The bytes the random source delivers, [offset] bytes from now. *)
Definition random_bytes (w : World) (offset n : nat) : list Z :=
  map (fun i => entropy w (drawn w + offset + i)%nat mod 256) (seq 0 n).

Definition after_draws (w : World) : World :=
  with_trace (with_drawn w (drawn w + 20)%nat)
    (trace w ++ [GetRandomValues 8; GetRandomValues 12]).

Definition logged (w : World) (evs : list Event) : World :=
  with_trace w (trace w ++ evs).

Definition envelope (rounds : jsstring) (salt iv c : list Z) : jsstring :=
  ENCODING ++ COLON :: rounds ++ COLON :: base64_encode salt
    ++ COLON :: base64_encode iv ++ COLON :: base64_encode c.

Lemma random_bytes_bytes w offset n : Forall is_byte (random_bytes w offset n).
Proof.
  unfold random_bytes. apply (Forall_mapped (fun _ => True)).
  - intros i _. unfold is_byte. lia.
  - clear. induction (seq 0 n); [apply List.Forall_nil | now apply List.Forall_cons].
Qed.

Lemma random_bytes_length w offset n : length (random_bytes w offset n) = n.
Proof. unfold random_bytes. now rewrite length_map, length_seq. Qed.

(** A name without NUL or lone surrogate is read under itself, whatever
    the kind of the object. *)
Lemma get_property_plain kind key m :
  c_string key = key -> get_property kind key m = m !! key.
Proof.
  intros H. destruct kind; cbn [get_property]; [reflexivity | now rewrite H].
Qed.

Lemma masterKey_returns w p :
  passphrase_in w p -> (16 <= length p)%nat -> masterKey w = (Returned p, w).
Proof.
  intros (l & Hl & Hp) Hlen. unfold masterKey, bind, process_env_get.
  rewrite Hl, (get_property_plain _ MASTER_KEY_VAR _ eq_refl), Hp.
  replace (Nat.eqb (length p) 0) with false by (symmetry; apply Nat.eqb_neq; lia).
  now replace (length p <? 16)%nat with false by (symmetry; apply Nat.ltb_ge; lia).
Qed.

Lemma masterKey_rejects w l :
  process_env w = Some (Some l) ->
  (forall k, env_at w l !! MASTER_KEY_VAR = Some k -> (length k < 16)%nat) ->
  masterKey w = (Threw (JsError masterKey_message), w).
Proof.
  intros Hl Hshort. unfold masterKey, bind, process_env_get.
  rewrite Hl, (get_property_plain _ MASTER_KEY_VAR _ eq_refl).
  destruct (env_at w l !! MASTER_KEY_VAR) as [k|] eqn:E; [|reflexivity].
  specialize (Hshort k eq_refl).
  replace (length k <? 16)%nat with true by (symmetry; apply Nat.ltb_lt; lia).
  now rewrite orb_true_r.
Qed.

Lemma masterKey_returned w p w' :
  masterKey w = (Returned p, w') ->
  w' = w /\ passphrase_in w p /\ (16 <= length p)%nat.
Proof.
  unfold masterKey, bind, process_env_get, passphrase_in.
  destruct (process_env w) as [[l|]|]; try discriminate.
  rewrite (get_property_plain _ MASTER_KEY_VAR _ eq_refl).
  destruct (env_at w l !! MASTER_KEY_VAR) as [k|] eqn:Ek; [|discriminate].
  destruct (Nat.eqb (length k) 0) eqn:E0; [discriminate|].
  destruct (length k <? 16)%nat eqn:E16; [discriminate|].
  cbn [orb]. intros [= <- <-]. apply Nat.ltb_ge in E16. eauto.
Qed.

Section Envelope.
Context {P : Platform}.
Variable M : ModuleState.

(** [encrypt] after its two draws. *)
Definition encrypt_with (secrets : jsstring) (salt iv : list Z) : Comp jsstring :=
  passphrase <- masterKey ;;
  key <- deriveKey M passphrase salt None ;;
  encryptedBuffer <-
    host_call CipherEncrypt (subtle_encrypt iv key (TextEncoder_encode secrets)) ;;
  saltBase64 <- lift (uint8ArrayToBase64 salt) ;;
  ivBase64 <- lift (uint8ArrayToBase64 iv) ;;
  encryptedBase64 <- lift (uint8ArrayToBase64 encryptedBuffer) ;;
  ret (ENCODING ++ COLON :: rounds_text (PBKDF2_ROUNDS M) ++ COLON :: saltBase64
         ++ COLON :: ivBase64 ++ COLON :: encryptedBase64).

Lemma encrypt_draws secrets w :
  encrypt M secrets w
  = encrypt_with secrets (random_bytes w 0 8) (random_bytes w 8 12) (after_draws w).
Proof.
  unfold encrypt, bind at 1 2, getRandomValues, AES_SALT_BYTES, AES_IV_BYTES.
  cbn [drawn trace entropy with_trace with_drawn].
  unfold encrypt_with, after_draws, random_bytes, with_trace, with_drawn.
  cbn [drawn trace entropy process_env import_meta_env heap].
  rewrite <- app_assoc. cbn [app].
  replace (drawn w + 8 + 12)%nat with (drawn w + 20)%nat by lia.
  replace (map (fun i => entropy w (drawn w + i)%nat mod 256) (seq 0 8))
    with (map (fun i => entropy w (drawn w + 0 + i)%nat mod 256) (seq 0 8)).
  - reflexivity.
  - apply map_ext. intros i. do 2 f_equal. lia.
Qed.

Lemma logged_logged w evs evs' : logged (logged w evs) evs' = logged w (evs ++ evs').
Proof.
  unfold logged, with_trace. cbn [process_env import_meta_env heap entropy drawn trace].
  now rewrite <- app_assoc.
Qed.

Lemma passphrase_in_logged w evs p : passphrase_in w p -> passphrase_in (logged w evs) p.
Proof. intros H. exact H. Qed.

Lemma passphrase_in_after_draws w p : passphrase_in w p -> passphrase_in (after_draws w) p.
Proof. intros H. exact H. Qed.

Lemma deriveKey_runs p salt iterations key w :
  derives_from p salt (default (rounds_number (PBKDF2_ROUNDS M)) iterations) key ->
  deriveKey M p salt iterations w = (Returned key, logged w [ImportKey; DeriveKey]).
Proof.
  intros (baseKey & Hi & Hd). unfold deriveKey, bind, host_call.
  rewrite Hi, Hd. f_equal. exact (logged_logged w [ImportKey] [DeriveKey]).
Qed.

Lemma encrypt_with_returns secrets salt iv p key c w :
  passphrase_in w p -> (16 <= length p)%nat ->
  derives_from p salt (rounds_number (PBKDF2_ROUNDS M)) key ->
  subtle_encrypt iv key (TextEncoder_encode secrets) = Returned c ->
  Forall is_byte salt -> Forall is_byte iv -> Forall is_byte c ->
  encrypt_with secrets salt iv w
  = (Returned (envelope (rounds_text (PBKDF2_ROUNDS M)) salt iv c),
     logged w [ImportKey; DeriveKey; CipherEncrypt]).
Proof.
  intros Hp Hlen Hk Hc Hsalt Hiv Hbytes. unfold encrypt_with.
  unfold bind at 1. rewrite (masterKey_returns w p Hp Hlen).
  unfold bind at 1. rewrite (deriveKey_runs p salt None key w Hk).
  unfold bind, host_call, lift, ret, uint8ArrayToBase64.
  rewrite Hc, !btoa_bytes by assumption.
  f_equal. exact (logged_logged w [ImportKey; DeriveKey] [CipherEncrypt]).
Qed.

Lemma encodedData_of_prefixed rest : encodedData_of (ENCODING ++ COLON :: rest) = rest.
Proof. reflexivity. Qed.

Lemma decrypt_envelope rounds salt iv c w :
  Forall (fun x => x <> COLON) rounds ->
  Forall is_byte salt -> Forall is_byte iv -> Forall is_byte c ->
  decrypt M (envelope rounds salt iv c) w
  = try_catch (decrypt_guarded M (parseInt10 rounds) salt iv c)
      (fun error => throw (JsError (js "Decryption failed: " ++ message_of error))) w.
Proof.
  intros Hr Hsalt Hiv Hc. unfold decrypt, envelope.
  rewrite encodedData_of_prefixed.
  rewrite split_on_segment by assumption.
  rewrite split_on_segment by now apply base64_encode_no_colon.
  rewrite split_on_segment by now apply base64_encode_no_colon.
  rewrite split_on_plain by now apply base64_encode_no_colon.
  unfold bind at 1, lift at 1. rewrite base64_roundtrip by assumption.
  unfold bind at 1, lift at 1. rewrite base64_roundtrip by assumption.
  unfold bind at 1, lift at 1. rewrite base64_roundtrip by assumption.
  reflexivity.
Qed.

Lemma decrypt_guarded_runs rounds salt iv c p key w :
  passphrase_in w p -> (16 <= length p)%nat ->
  derives_from p salt rounds key ->
  decrypt_guarded M rounds salt iv c w
  = (match subtle_decrypt iv key c with
     | Returned d => Returned (TextDecoder_decode d)
     | Threw e => Threw e
     end, logged w [ImportKey; DeriveKey; CipherDecrypt]).
Proof.
  intros Hp Hlen Hk. unfold decrypt_guarded.
  unfold bind at 1. rewrite (masterKey_returns w p Hp Hlen).
  unfold bind at 1. rewrite (deriveKey_runs p salt (Some rounds) key w Hk).
  unfold bind, host_call, ret.
  change (with_trace (logged w [ImportKey; DeriveKey])
            (trace (logged w [ImportKey; DeriveKey]) ++ [CipherDecrypt]))
    with (logged (logged w [ImportKey; DeriveKey]) [CipherDecrypt]).
  rewrite (logged_logged w [ImportKey; DeriveKey] [CipherDecrypt]).
  now destruct (subtle_decrypt iv key c).
Qed.


Lemma btoa_returned data s : btoa data = Returned s -> s = base64_encode data.
Proof. unfold btoa. destruct (forallb _ data); [now intros [= <-] | discriminate]. Qed.

(** What a returned envelope tells of the call that made it. *)
Lemma encrypt_returned x w e w' :
  encrypt M x w = (Returned e, w') ->
  exists p key c,
    passphrase_in w p /\ (16 <= length p)%nat
    /\ derives_from p (random_bytes w 0 8) (rounds_number (PBKDF2_ROUNDS M)) key
    /\ subtle_encrypt (random_bytes w 8 12) key (TextEncoder_encode x) = Returned c
    /\ e = envelope (rounds_text (PBKDF2_ROUNDS M))
             (random_bytes w 0 8) (random_bytes w 8 12) c
    /\ w' = logged (after_draws w) [ImportKey; DeriveKey; CipherEncrypt].
Proof.
  rewrite encrypt_draws. unfold encrypt_with.
  unfold bind at 1.
  destruct (masterKey (after_draws w)) as [[p|?] w1] eqn:Em; [|discriminate].
  apply masterKey_returned in Em as (-> & Hp & Hlen).
  unfold bind at 1, deriveKey, bind at 1, host_call at 1.
  cbn [default].
  destruct (subtle_importKey (TextEncoder_encode p)) as [baseKey|?] eqn:Ei;
    [|discriminate].
  unfold host_call at 1.
  destruct (subtle_deriveKey _ _ baseKey) as [key|?] eqn:Ed; [|discriminate].
  unfold bind at 1, host_call at 1.
  destruct (subtle_encrypt _ key _) as [c|?] eqn:Ec; [|discriminate].
  unfold bind at 1, lift at 1, uint8ArrayToBase64.
  destruct (btoa (random_bytes w 0 8)) as [s1|?] eqn:E1; [|discriminate].
  unfold bind at 1, lift at 1.
  destruct (btoa (random_bytes w 8 12)) as [s2|?] eqn:E2; [|discriminate].
  unfold bind at 1, lift at 1.
  destruct (btoa c) as [s3|?] eqn:E3; [|discriminate].
  apply btoa_returned in E1, E2, E3. subst s1 s2 s3.
  unfold ret. intros [= <- <-].
  exists p, key, c. split; [exact Hp|]. split; [exact Hlen|].
  split; [now exists baseKey|]. split; [exact Ec|]. split; [reflexivity|].
  unfold logged, with_trace.
  cbn [process_env import_meta_env heap kind_of entropy drawn trace].
  f_equal. unfold after_draws, with_trace, with_drawn. cbn [trace].
  now rewrite <- !app_assoc.
Qed.
End Envelope.

Section RoundTrip.
Context {P : Platform} {L : PlatformLaws P}.

Lemma derives_from_exists p salt n :
  Forall is_code_unit p -> Forall is_byte salt -> 0 < n <= max_iterations ->
  exists key, derives_from p salt (num_of_Z n) key.
Proof.
  intros Hp Hsalt Hn.
  destruct (importKey_total (TextEncoder_encode p)) as [baseKey Hb];
    [now apply TextEncoder_encode_bytes|].
  destruct (deriveKey_total salt n baseKey Hsalt Hn) as [key Hk].
  exists key, baseKey. now split.
Qed.

(** Encryption succeeds, and the envelope decrypts, in any world holding
    the same passphrase and under any module state, to the text that the
    decoder reads from the plaintext bytes. *)
Lemma roundtrip_general M w p x :
  plain_rounds (PBKDF2_ROUNDS M) ->
  passphrase_in w p -> (16 <= length p)%nat ->
  Forall is_code_unit p -> Forall is_code_unit x ->
  exists c,
    Forall is_byte c
    /\ encrypt M x w
       = (Returned (envelope (rounds_text (PBKDF2_ROUNDS M))
                      (random_bytes w 0 8) (random_bytes w 8 12) c),
          logged (after_draws w) [ImportKey; DeriveKey; CipherEncrypt])
    /\ forall M' w', passphrase_in w' p ->
         decrypt M' (envelope (rounds_text (PBKDF2_ROUNDS M))
                       (random_bytes w 0 8) (random_bytes w 8 12) c) w'
         = (Returned (TextDecoder_decode (TextEncoder_encode x)),
            logged w' [ImportKey; DeriveKey; CipherDecrypt]).
Proof.
  intros Hplain Hp Hlen Hpu Hxu.
  destruct (plain_rounds_spec _ Hplain) as (Hnum & Hparse & Hrange & Hcolon).
  set (salt := random_bytes w 0 8). set (iv := random_bytes w 8 12).
  assert (Hsalt : Forall is_byte salt) by apply random_bytes_bytes.
  assert (Hiv : Forall is_byte iv) by apply random_bytes_bytes.
  destruct (derives_from_exists p salt _ Hpu Hsalt Hrange) as [key Hkey].
  pose proof (TextEncoder_encode_bytes x Hxu) as Hdata.
  destruct (encrypt_total iv key (TextEncoder_encode x)) as (c & Hc & Hcb);
    [apply random_bytes_length | assumption | assumption |].
  exists c. split; [assumption|]. split.
  - rewrite encrypt_draws. fold salt iv.
    apply (encrypt_with_returns M x salt iv p key c); try assumption.
    now rewrite Hnum.
  - intros M' w' Hp'.
    rewrite decrypt_envelope by assumption.
    unfold try_catch.
    rewrite (decrypt_guarded_runs M' _ salt iv c p key w' Hp' Hlen)
      by now rewrite Hparse.
    now rewrite (decrypt_encrypt iv key _ c Hdata Hc).
Qed.

(** The key and the cipher's output behind a returned envelope. *)
Lemma encrypt_returns M w p x :
  plain_rounds (PBKDF2_ROUNDS M) ->
  passphrase_in w p -> (16 <= length p)%nat ->
  Forall is_code_unit p -> Forall is_code_unit x ->
  exists key c,
    derives_from p (random_bytes w 0 8) (num_of_Z (rounds_count (PBKDF2_ROUNDS M))) key
    /\ subtle_encrypt (random_bytes w 8 12) key (TextEncoder_encode x) = Returned c
    /\ Forall is_byte c
    /\ encrypt M x w
       = (Returned (envelope (rounds_text (PBKDF2_ROUNDS M))
                      (random_bytes w 0 8) (random_bytes w 8 12) c),
          logged (after_draws w) [ImportKey; DeriveKey; CipherEncrypt]).
Proof.
  intros Hplain Hp Hlen Hpu Hxu.
  destruct (plain_rounds_spec _ Hplain) as (Hnum & Hparse & Hrange & Hcolon).
  destruct (derives_from_exists p (random_bytes w 0 8) _ Hpu
              (random_bytes_bytes w 0 8) Hrange) as [key Hkey].
  destruct (encrypt_total (random_bytes w 8 12) key (TextEncoder_encode x))
    as (c & Hc & Hcb);
    [apply random_bytes_length | apply random_bytes_bytes
    | now apply TextEncoder_encode_bytes |].
  exists key, c. repeat split; try assumption.
  rewrite encrypt_draws.
  apply (encrypt_with_returns M x _ _ p key c); try assumption;
    try apply random_bytes_bytes.
  now rewrite Hnum.
Qed.
End RoundTrip.

(** ** The small instance satisfies the laws *)

Lemma toy_shift_back key data :
  Forall is_byte data ->
  map (fun b => (b - key) mod 256) (map (fun b => (b + key) mod 256) data) = data.
Proof.
  induction 1 as [|b l Hb _ IH]; [reflexivity|].
  cbn [map]. rewrite IH. f_equal. unfold is_byte in Hb. lia.
Qed.

Lemma toy_laws : PlatformLaws Toy.platform.
Proof.
  split.
  - intros s Hne Hd _. cbn [StringToNumber num_of_Z Toy.platform].
    unfold Toy.string_to_number. destruct s; [contradiction|]. now rewrite Hd.
  - intros raw _. now exists raw.
  - intros salt n baseKey _ Hn. cbn in Hn |- *. unfold Toy.deriveKey.
    replace (0 <? n) with true by (symmetry; apply Z.ltb_lt; lia).
    replace (n <? 2 ^ 32) with true by (symmetry; apply Z.ltb_lt; lia).
    eauto.
  - cbn. lia.
  - intros iv key data Hlen _ _. cbn. unfold Toy.encrypt.
    rewrite Hlen. cbn [Nat.eqb]. eexists. split; [reflexivity|].
    apply Forall_app. split.
    + apply (Forall_mapped (fun _ => True)).
      * intros b _. unfold is_byte. lia.
      * clear. induction data; [apply List.Forall_nil | now apply List.Forall_cons].
    + apply List.Forall_cons; [|apply List.Forall_nil].
      unfold Toy.tag, is_byte. lia.
  - intros iv key data c Hdata. cbn. unfold Toy.encrypt, Toy.decrypt.
    destruct (length iv =? 12)%nat; [|discriminate].
    intros [= <-]. rewrite rev_app_distr. cbn [rev app].
    rewrite rev_involutive, Z.eqb_refl. now rewrite toy_shift_back.
Qed.

(** ** Resolving a target *)

(** What [getEnvObject] computes from the two references. *)
Definition resolve_target (target : jsstring) (proc meta : option (option nat))
    : outcome nat :=
  match meta with
  | None =>
      match proc with
      | Some (Some l) => Returned l
      | _ => Threw process_env_unavailable
      end
  | Some m =>
      if bool_decide (target = EnvTarget.PROCESS) then
        match proc with
        | Some (Some l) => Returned l
        | _ => Threw process_env_unavailable
        end
      else if bool_decide (target = EnvTarget.IMPORT_META) then
        match m with
        | Some l => Returned l
        | None => Threw import_meta_env_unavailable
        end
      else Threw (unsupported_target target)
  end.

Lemma getEnvObject_resolves target w :
  getEnvObject target w
  = (resolve_target target (process_env w) (import_meta_env w), w).
Proof.
  cbv beta iota delta [getEnvObject resolve_target bind typeof_import_meta_defined
    process_env_object import_meta_env_object ret throw].
  destruct (import_meta_env w) as [[m|]|] eqn:Em;
    destruct (process_env w) as [[l|]|] eqn:Ep;
    cbn; repeat case_bool_decide; cbn; rewrite ?Em, ?Ep; cbn;
    try reflexivity; try congruence.
Qed.

(** ** Writing a payload *)

(** The entries of an object after the assignments of a payload, in the
    order of the payload. *)
Definition assign_all (kind : EnvKind) (payload : list (jsstring * jsstring))
    (m : gmap (list Z) (list Z)) : gmap (list Z) (list Z) :=
  fold_left (fun m e => assign_property kind e.1 e.2 m) payload m.

(** [w'] is [w] with the payload assigned to the object at [l]. *)
Definition stored (l : nat) (payload : list (jsstring * jsstring))
    (w w' : World) : Prop :=
  process_env w' = process_env w
  /\ import_meta_env w' = import_meta_env w
  /\ kind_of w' = kind_of w
  /\ entropy w' = entropy w /\ drawn w' = drawn w /\ trace w' = trace w
  /\ env_at w' l = assign_all (kind_of w l) payload (env_at w l)
  /\ forall l', l' <> l -> heap w' !! l' = heap w !! l'.

Lemma for_each_store l (body : jsstring * jsstring -> Comp unit)
    (es : list (jsstring * jsstring)) w :
  (forall k v w1,
     process_env w1 = process_env w -> import_meta_env w1 = import_meta_env w ->
     body (k, v) w1 = store_env l k v w1) ->
  exists w', for_each es body w = (Returned tt, w') /\ stored l es w w'.
Proof.
  revert w. induction es as [|[k v] es IH]; intros w Hbody.
  - exists w. split; [reflexivity|]. unfold stored. now repeat split.
  - cbn [for_each]. unfold bind at 1. rewrite Hbody by reflexivity.
    unfold store_env.
    set (w1 := with_heap w
                 (<[l := assign_property (kind_of w l) k v (env_at w l)]> (heap w))).
    destruct (IH w1) as (w' & Hrun & Hp & Hm & Hk & He & Hd & Ht & Henv & Hother).
    { intros k' v' w2 H1 H2. now apply Hbody. }
    exists w'. split; [exact Hrun|]. unfold stored.
    repeat split; try assumption.
    + assert (Hw1 : env_at w1 l = assign_property (kind_of w l) k v (env_at w l)).
      { unfold env_at at 1. subst w1. cbn [heap with_heap].
        now rewrite lookup_insert_eq. }
      rewrite Henv, Hw1. reflexivity.
    + intros l' Hl'. rewrite Hother by assumption.
      subst w1. cbn [heap with_heap]. now rewrite lookup_insert_ne.
Qed.

Lemma mergeSecrets_stores payload target w l :
  resolve_target target (process_env w) (import_meta_env w) = Returned l ->
  exists w', mergeSecrets payload target w = (Returned l, w')
             /\ stored l payload w w'.
Proof.
  intros Hres. unfold mergeSecrets.
  unfold bind at 1. rewrite getEnvObject_resolves, Hres.
  unfold bind at 1, typeof_import_meta_defined at 1.
  unfold resolve_target in Hres.
  destruct (import_meta_env w) as [m|] eqn:Em.
  - rewrite bool_decide_true by discriminate. cbn [negb].
    destruct (for_each_store l
                (fun '(key, value) =>
                   proc <- typeof_process_defined ;;
                   if bool_decide (target = EnvTarget.PROCESS) && proc
                   then process_env_set key value
                   else
                     meta' <- typeof_import_meta_defined ;;
                     if bool_decide (target = EnvTarget.IMPORT_META) && meta'
                     then import_meta_env_set key value
                     else ret tt)
                payload w) as (w' & Hrun & Hst).
    + intros k v w1 Hp1 Hm1.
      unfold bind at 1, typeof_process_defined at 1.
      destruct (decide (target = EnvTarget.PROCESS)) as [Ht|Ht].
      * rewrite (bool_decide_true _ Ht) in Hres. rewrite (bool_decide_true _ Ht).
        destruct (process_env w) as [[l0|]|] eqn:Ep; try discriminate.
        injection Hres as ->.
        assert (Hne : process_env w1 <> None) by congruence.
        rewrite (bool_decide_true _ Hne). cbn [andb].
        unfold process_env_set. now rewrite Hp1.
      * rewrite (bool_decide_false _ Ht) in Hres. rewrite (bool_decide_false _ Ht).
        cbn [andb]. unfold bind at 1, typeof_import_meta_defined at 1.
        destruct (decide (target = EnvTarget.IMPORT_META)) as [Ht'|Ht'].
        -- rewrite (bool_decide_true _ Ht') in Hres. rewrite (bool_decide_true _ Ht').
           assert (Hne : import_meta_env w1 <> None) by congruence.
           rewrite (bool_decide_true _ Hne).
           cbn [andb].
           destruct m as [l0|]; [|discriminate]. injection Hres as ->.
           unfold import_meta_env_set. now rewrite Hm1, Em.
        -- rewrite (bool_decide_false _ Ht') in Hres. discriminate.
    + exists w'. unfold bind at 1. rewrite Hrun. now split.
  - rewrite bool_decide_false by (intros H; now apply H). cbn [negb].
    unfold bind at 1, process_env_object at 1.
    destruct (process_env w) as [[l0|]|] eqn:Ep; try discriminate.
    injection Hres as ->. cbn [mjoin option_join].
    destruct (for_each_store l
                (fun '(key, value) => process_env_set key value)
                payload w) as (w' & Hrun & Hst).
    + intros k v w1 Hp1 _. unfold process_env_set. now rewrite Hp1, Ep.
    + exists w'. unfold bind at 1. rewrite Hrun. now split.
Qed.

Lemma mergeSecrets_throws payload target w e :
  resolve_target target (process_env w) (import_meta_env w) = Threw e ->
  mergeSecrets payload target w = (Threw e, w).
Proof.
  intros Hres. unfold mergeSecrets.
  unfold bind at 1. now rewrite getEnvObject_resolves, Hres.
Qed.

(** ** What an assignment records *)

(** Entries written one after the other, each as it is. *)
Definition inserts (es : list (jsstring * jsstring)) (m : gmap (list Z) (list Z))
    : gmap (list Z) (list Z) :=
  fold_left (fun m e => <[e.1 := e.2]> m) es m.

Lemma inserts_union es m : inserts es m = list_to_map (rev es) ∪ m.
Proof.
  revert m. induction es as [|[k v] es IH]; intros m.
  - cbn. now rewrite (left_id_L ∅ (∪)).
  - change (inserts ((k, v) :: es) m) with (inserts es (<[k := v]> m)).
    rewrite IH. cbn [rev]. rewrite list_to_map_app.
    change (list_to_map [(k, v)] : gmap (list Z) (list Z)) with (<[k := v]> (∅ : gmap (list Z) (list Z))).
    rewrite insert_empty, <- (assoc_L (∪)). f_equal.
    apply insert_union_singleton_l.
Qed.

Lemma inserts_twice es m : inserts es (inserts es m) = inserts es m.
Proof.
  rewrite !inserts_union. rewrite (assoc_L (∪)). now rewrite (idemp_L (∪)).
Qed.

Lemma inserts_lookup_other es m k :
  k ∉ es.*1 -> inserts es m !! k = m !! k.
Proof.
  revert m. induction es as [|[k0 v0] es IH]; intros m Hk; [reflexivity|].
  change (inserts ((k0, v0) :: es) m) with (inserts es (<[k0 := v0]> m)).
  cbn [fmap list_fmap fst] in Hk. apply not_elem_of_cons in Hk as [Hne Hk].
  rewrite IH by assumption. now apply lookup_insert_ne.
Qed.

Lemma inserts_lookup es m k v :
  NoDup es.*1 -> (k, v) ∈ es -> inserts es m !! k = Some v.
Proof.
  revert m. induction es as [|[k0 v0] es IH]; intros m Hnd Hin.
  - now apply elem_of_nil in Hin.
  - change (inserts ((k0, v0) :: es) m) with (inserts es (<[k0 := v0]> m)).
    cbn [fmap list_fmap fst] in Hnd. apply NoDup_cons in Hnd as [Hk0 Hnd].
    apply elem_of_cons in Hin as [[= -> ->]|Hin].
    + rewrite inserts_lookup_other by assumption. apply lookup_insert_eq.
    + now apply IH.
Qed.

(** What [obj[key] = value] records, if anything: for an ordinary object
    it depends on whether the object has a property [__proto__] of its
    own, which no assignment changes. *)
Definition recorded (kind : EnvKind) (own_proto : bool) (e : jsstring * jsstring)
    : option (jsstring * jsstring) :=
  match kind with
  | OrdinaryObject =>
      if bool_decide (e.1 = js "__proto__") && negb own_proto then None else Some e
  | NodeProcessEnv =>
      if bool_decide (c_string e.1 = []) || existsb (Z.eqb 61) (c_string e.1)
      then None
      else Some (c_string e.1, c_string e.2)
  end.

Definition owns_proto (kind : EnvKind) (m : gmap (list Z) (list Z)) : bool :=
  match kind with
  | OrdinaryObject => negb (bool_decide (m !! js "__proto__" = None))
  | NodeProcessEnv => false
  end.

Lemma assign_property_recorded kind k v m :
  assign_property kind k v m
  = match recorded kind (owns_proto kind m) (k, v) with
    | Some e => <[e.1 := e.2]> m
    | None => m
    end.
Proof.
  destruct kind; cbn [assign_property recorded owns_proto fst snd].
  - rewrite negb_involutive.
    destruct (decide (k = js "__proto__")) as [->|Hne].
    + now destruct (bool_decide (_ !! _ = None)).
    + now rewrite (bool_decide_false _ Hne).
  - now destruct (_ || _).
Qed.

Lemma owns_proto_assign kind k v m :
  owns_proto kind (assign_property kind k v m) = owns_proto kind m.
Proof.
  destruct kind; [|reflexivity]. cbn [assign_property owns_proto].
  destruct (decide (k = js "__proto__")) as [->|Hne].
  - assert (HP : bool_decide (js "__proto__" = js "__proto__") = true)
      by now apply bool_decide_true.
    rewrite HP. cbn [andb].
    destruct (decide (m !! js "__proto__" = None)) as [Hn|Hs].
    + now rewrite !(bool_decide_true _ Hn).
    + rewrite !(bool_decide_false _ Hs). cbv iota.
      now rewrite lookup_insert_eq.
  - rewrite (bool_decide_false _ Hne). cbn [andb].
    now rewrite lookup_insert_ne.
Qed.

Lemma owns_proto_assign_all kind payload m :
  owns_proto kind (assign_all kind payload m) = owns_proto kind m.
Proof.
  revert m. induction payload as [|[k v] es IH]; intros m; [reflexivity|].
  change (assign_all kind ((k, v) :: es) m)
    with (assign_all kind es (assign_property kind k v m)).
  now rewrite IH, owns_proto_assign.
Qed.

Lemma assign_all_inserts kind payload m :
  assign_all kind payload m
  = inserts (omap (recorded kind (owns_proto kind m)) payload) m.
Proof.
  revert m. induction payload as [|[k v] es IH]; intros m; [reflexivity|].
  change (assign_all kind ((k, v) :: es) m)
    with (assign_all kind es (assign_property kind k v m)).
  rewrite IH, owns_proto_assign, assign_property_recorded. cbn [omap list_omap].
  now destruct (recorded kind (owns_proto kind m) (k, v)).
Qed.

(** Assigning a payload a second time changes no entry, whatever the
    object makes of its names and values. *)
Lemma assign_all_twice kind payload m :
  assign_all kind payload (assign_all kind payload m) = assign_all kind payload m.
Proof.
  rewrite (assign_all_inserts kind payload (assign_all kind payload m)).
  rewrite owns_proto_assign_all, (assign_all_inserts kind payload m).
  apply inserts_twice.
Qed.

(** A string without NUL or lone surrogate. *)
Definition plain_text (s : jsstring) : bool :=
  forallb (fun c => (0 <? c) && (c <? 65536)) s && well_formed s.

(** The entries an object of the kind records as they are given: an
    ordinary object all but one under the name [__proto__]; Node's
    [process.env] those whose name is not empty and holds no [=], name and
    value being free of NUL and of lone surrogates. *)
Definition taken_as_given (kind : EnvKind) (e : jsstring * jsstring) : bool :=
  match kind with
  | OrdinaryObject => negb (bool_decide (e.1 = js "__proto__"))
  | NodeProcessEnv =>
      plain_text e.1 && plain_text e.2
      && negb (bool_decide (e.1 = [])) && negb (existsb (Z.eqb 61) e.1)
  end.

Lemma before_nul_plain s :
  forallb (fun c => (0 <? c) && (c <? 65536)) s = true -> before_nul s = s.
Proof.
  induction s as [|c s IH]; [reflexivity|].
  cbn [forallb before_nul]. rewrite !andb_true_iff, Z.ltb_lt. intros [[Hc _] Hs].
  replace (c =? 0) with false by (symmetry; apply Z.eqb_neq; lia).
  now rewrite IH.
Qed.

Lemma c_string_plain s : plain_text s = true -> c_string s = s.
Proof.
  unfold plain_text, c_string. rewrite andb_true_iff. intros [Hr Hwf].
  rewrite before_nul_plain by assumption.
  apply utf16_units_scalar_values; [|assumption].
  clear Hwf. induction s as [|c s IH]; [apply List.Forall_nil|].
  cbn [forallb] in Hr. rewrite !andb_true_iff, !Z.ltb_lt in Hr.
  destruct Hr as [[H0 H1] Hs].
  apply List.Forall_cons; [unfold is_code_unit; lia | auto].
Qed.

Lemma recorded_given kind own e :
  taken_as_given kind e = true -> recorded kind own e = Some e.
Proof.
  destruct kind, e as [k v]; cbn [taken_as_given recorded fst snd].
  - intros H. apply negb_true_iff in H. now rewrite H.
  - rewrite !andb_true_iff, !negb_true_iff. intros [[[Hk Hv] Hne] Heq].
    rewrite (c_string_plain k Hk), (c_string_plain v Hv), Hne, Heq. reflexivity.
Qed.

Lemma assign_all_given kind payload m :
  forallb (taken_as_given kind) payload = true ->
  assign_all kind payload m = inserts payload m.
Proof.
  intros Hg. rewrite assign_all_inserts. f_equal.
  induction payload as [|e es IH]; [reflexivity|].
  cbn [forallb] in Hg. apply andb_true_iff in Hg as [He Hes].
  cbn [omap list_omap]. now rewrite (recorded_given _ _ _ He), IH.
Qed.

(** With distinct names, the entries written are those of the payload over
    the old ones. *)
Lemma inserts_payload es m :
  NoDup es.*1 -> inserts es m = list_to_map es ∪ m.
Proof.
  revert m. induction es as [|[k v] es IH]; intros m Hnd.
  - cbn. now rewrite (left_id_L ∅ (∪)).
  - change (inserts ((k, v) :: es) m) with (inserts es (<[k := v]> m)).
    cbn [fmap list_fmap fst] in Hnd. apply NoDup_cons in Hnd as [Hk Hnd].
    rewrite IH by assumption. rewrite list_to_map_cons.
    rewrite <- insert_union_r by now apply not_elem_of_list_to_map_1.
    now rewrite insert_union_l.
Qed.

(** ** What a call leaves alone *)

Section Frames.
Variable R : World -> World -> Prop.
Hypothesis R_refl : forall w, R w w.
Hypothesis R_trans : forall a b c, R a b -> R b c -> R a c.

Definition keeps {A} (m : Comp A) : Prop :=
  forall w r w', m w = (r, w') -> R w w'.

Lemma keeps_ret {A} (a : A) : keeps (ret a).
Proof. intros w r w' [= _ <-]. apply R_refl. Qed.

Lemma keeps_throw {A} e : keeps (@throw A e).
Proof. intros w r w' [= _ <-]. apply R_refl. Qed.

Lemma keeps_lift {A} (o : outcome A) : keeps (lift o).
Proof. intros w r w' [= _ <-]. apply R_refl. Qed.

Lemma keeps_bind {A B} (m : Comp A) (k : A -> Comp B) :
  keeps m -> (forall a, keeps (k a)) -> keeps (bind m k).
Proof.
  intros Hm Hk w r w'. unfold bind.
  destruct (m w) as [[a|e] w1] eqn:E.
  - intros H. eapply R_trans; [exact (Hm _ _ _ E) | exact (Hk a _ _ _ H)].
  - intros [= _ <-]. exact (Hm _ _ _ E).
Qed.

Lemma keeps_try_catch {A} (m : Comp A) (h : thrown -> Comp A) :
  keeps m -> (forall e, keeps (h e)) -> keeps (try_catch m h).
Proof.
  intros Hm Hh w r w'. unfold try_catch.
  destruct (m w) as [[a|e] w1] eqn:E.
  - intros [= _ <-]. exact (Hm _ _ _ E).
  - intros H. eapply R_trans; [exact (Hm _ _ _ E) | exact (Hh e _ _ _ H)].
Qed.
End Frames.

(** Only the trace may differ. *)
Definition only_logs (w w' : World) : Prop :=
  process_env w' = process_env w /\ import_meta_env w' = import_meta_env w
  /\ heap w' = heap w /\ entropy w' = entropy w /\ drawn w' = drawn w
  /\ kind_of w' = kind_of w.

(** The environment objects and the references to them are the same. *)
Definition same_store (w w' : World) : Prop :=
  process_env w' = process_env w /\ import_meta_env w' = import_meta_env w
  /\ heap w' = heap w /\ kind_of w' = kind_of w.

Lemma only_logs_refl w : only_logs w w.
Proof. now repeat split. Qed.

Lemma only_logs_trans a b c : only_logs a b -> only_logs b c -> only_logs a c.
Proof. unfold only_logs. intuition congruence. Qed.

Lemma same_store_refl w : same_store w w.
Proof. now repeat split. Qed.

Lemma same_store_trans a b c : same_store a b -> same_store b c -> same_store a c.
Proof. unfold same_store. intuition congruence. Qed.

Lemma only_logs_same_store w w' : only_logs w w' -> same_store w w'.
Proof. unfold only_logs, same_store. tauto. Qed.

Lemma logs_ret {A} (a : A) : keeps only_logs (ret a).
Proof. exact (keeps_ret only_logs only_logs_refl a). Qed.

Lemma logs_throw {A} e : keeps only_logs (@throw A e).
Proof. exact (keeps_throw only_logs only_logs_refl e). Qed.

Lemma logs_lift {A} (o : outcome A) : keeps only_logs (lift o).
Proof. exact (keeps_lift only_logs only_logs_refl o). Qed.

Lemma logs_bind {A B} (m : Comp A) (k : A -> Comp B) :
  keeps only_logs m -> (forall a, keeps only_logs (k a)) -> keeps only_logs (bind m k).
Proof. exact (keeps_bind only_logs only_logs_trans m k). Qed.

Lemma logs_try_catch {A} (m : Comp A) (h : thrown -> Comp A) :
  keeps only_logs m -> (forall e, keeps only_logs (h e)) ->
  keeps only_logs (try_catch m h).
Proof. exact (keeps_try_catch only_logs only_logs_trans m h). Qed.

Lemma logs_host_call {A} ev (o : outcome A) : keeps only_logs (host_call ev o).
Proof. intros w r w' [= _ <-]. now repeat split. Qed.

Lemma logs_masterKey : keeps only_logs masterKey.
Proof.
  apply logs_bind.
  - intros w r w'. unfold process_env_get.
    destruct (process_env w) as [[l|]|]; intros [= _ <-]; apply only_logs_refl.
  - intros [k|]; [|apply logs_throw].
    destruct (_ || _); [apply logs_throw | apply logs_ret].
Qed.

Section FrameOfSecrets.
Context {P : Platform}.
Variable M : ModuleState.

Lemma logs_deriveKey p salt iterations :
  keeps only_logs (deriveKey M p salt iterations).
Proof.
  apply logs_bind; [apply logs_host_call | intros a; apply logs_host_call].
Qed.

Lemma logs_decrypt_guarded rounds salt iv c :
  keeps only_logs (decrypt_guarded M rounds salt iv c).
Proof.
  unfold decrypt_guarded.
  apply logs_bind; [apply logs_masterKey | intros p].
  apply logs_bind; [apply logs_deriveKey | intros key].
  apply logs_bind; [apply logs_host_call | intros d]. apply logs_ret.
Qed.

(** [decrypt] reads the passphrase and calls the host; it draws no
    randomness and writes to no environment object. *)
Lemma logs_decrypt s : keeps only_logs (decrypt M s).
Proof.
  unfold decrypt.
  destruct (split_on COLON (encodedData_of s)) as [|p0 [|p1 [|p2 [|p3 [|p4 r]]]]];
    try apply logs_throw.
  apply logs_bind; [apply logs_lift | intros salt].
  apply logs_bind; [apply logs_lift | intros iv].
  apply logs_bind; [apply logs_lift | intros c].
  apply logs_try_catch; [apply logs_decrypt_guarded | intros e; apply logs_throw].
Qed.

Lemma logs_encrypt_with x salt iv : keeps only_logs (encrypt_with M x salt iv).
Proof.
  unfold encrypt_with.
  apply logs_bind; [apply logs_masterKey | intros p].
  apply logs_bind; [apply logs_deriveKey | intros key].
  apply logs_bind; [apply logs_host_call | intros d].
  apply logs_bind; [apply logs_lift | intros s1].
  apply logs_bind; [apply logs_lift | intros s2].
  apply logs_bind; [apply logs_lift | intros s3]. apply logs_ret.
Qed.

(** [encrypt] writes to no environment object. *)
Lemma encrypt_same_store x : keeps same_store (encrypt M x).
Proof.
  intros w r w'. rewrite encrypt_draws. intros H.
  apply logs_encrypt_with in H. destruct H as (H1 & H2 & H3 & _ & _ & H4).
  now repeat split.
Qed.
End FrameOfSecrets.

(** ** Checks on concrete inputs *)

Lemma code_units_checked s :
  forallb (fun c => (0 <=? c) && (c <? 65536)) s = true -> Forall is_code_unit s.
Proof.
  induction s as [|c s IH]; [intros; apply List.Forall_nil|].
  cbn [forallb]. rewrite !andb_true_iff, Z.leb_le, Z.ltb_lt. intros [Hc Hs].
  apply List.Forall_cons; [exact Hc | auto].
Qed.

Lemma toy_passphrase_in vars :
  vars !! MASTER_KEY_VAR = Some Toy.passphrase ->
  passphrase_in (Toy.node vars) Toy.passphrase.
Proof.
  intros H. exists 0%nat. split; [reflexivity|].
  unfold env_at, Toy.node. cbn [heap]. now rewrite lookup_singleton_eq.
Qed.

(** * Properties of the specification *)

(** ** C1: round trip *)

(** C1, as stated, fails: the string U+FEFF "hi" is well-formed, the
    passphrase has 24 characters, and decrypting its envelope returns "hi",
    because the decoder drops a leading byte order mark. *)
Lemma bom_lost_in_roundtrip :
  well_formed (0xFEFF :: js "hi") = true
  /\ (16 <= length Toy.passphrase)%nat
  /\ fst ((e <- encrypt (P := Toy.platform) Toy.defaults (0xFEFF :: js "hi") ;;
           decrypt (P := Toy.platform) Toy.defaults e) (Toy.node Toy.keyed))
     = Returned (js "hi")
  /\ js "hi" <> 0xFEFF :: js "hi".
Proof.
  split; [reflexivity|]. split; [vm_compute; lia|].
  split; [vm_compute; reflexivity | discriminate].
Qed.

(** C1 (amended): for every well-formed string [x] that does not start with
    U+FEFF and every passphrase of at least 16 code units, when the rounds
    setting is the default or a plain decimal count, [encrypt x] returns an
    envelope and [decrypt] of it, run next under the same passphrase,
    returns [x]. *)
Theorem encrypt_decrypt_roundtrip {P : Platform} {L : PlatformLaws P} M w p x :
  plain_rounds (PBKDF2_ROUNDS M) ->
  passphrase_in w p -> (16 <= length p)%nat ->
  Forall is_code_unit p -> Forall is_code_unit x ->
  well_formed x = true -> head x <> Some 0xFEFF ->
  exists w', (e <- encrypt M x ;; decrypt M e) w = (Returned x, w').
Proof.
  intros Hplain Hp Hlen Hpu Hxu Hwf Hhd.
  destruct (roundtrip_general M w p x Hplain Hp Hlen Hpu Hxu) as (c & _ & He & Hd).
  eexists. unfold bind. rewrite He.
  rewrite (Hd M _ (passphrase_in_logged _ _ _ (passphrase_in_after_draws _ _ Hp))).
  now rewrite text_roundtrip.
Qed.

Lemma encrypt_decrypt_roundtrip_witness :
  exists w',
    (e <- encrypt (P := Toy.platform) Toy.defaults (js "hi") ;;
     decrypt (P := Toy.platform) Toy.defaults e) (Toy.node Toy.keyed)
    = (Returned (js "hi"), w').
Proof.
  apply (@encrypt_decrypt_roundtrip Toy.platform toy_laws Toy.defaults
           (Toy.node Toy.keyed) Toy.passphrase (js "hi")).
  - reflexivity.
  - apply toy_passphrase_in. vm_compute. reflexivity.
  - vm_compute. lia.
  - apply code_units_checked. vm_compute. reflexivity.
  - apply code_units_checked. vm_compute. reflexivity.
  - reflexivity.
  - vm_compute. discriminate.
Defined.

(** ** C2: format error *)

(** C2: when the input, after an optional [base64:] prefix is removed, does
    not split on [:] into exactly four segments, [decrypt] throws the format
    error naming the number of segments found, and leaves the world as it
    was: no passphrase read, no base64 decoding, no host call. *)
Theorem decrypt_format_error {P : Platform} M s w :
  length (split_on COLON (encodedData_of s)) <> 4%nat ->
  decrypt M s w
  = (Threw (JsError
              (js "Encrypted payload invalid. Expected 4 sections but got "
               ++ decimal_of_nat (length (split_on COLON (encodedData_of s))))),
     w).
Proof.
  intros Hn. unfold decrypt.
  destruct (split_on COLON (encodedData_of s)) as [|p0 [|p1 [|p2 [|p3 [|p4 r]]]]];
    try reflexivity.
  now contradiction Hn.
Qed.

Lemma decrypt_format_error_witness :
  decrypt (P := Toy.platform) Toy.defaults (js "base64:onlyonepart")
    (Toy.node Toy.keyed)
  = (Threw (JsError
              (js "Encrypted payload invalid. Expected 4 sections but got 1")),
     Toy.node Toy.keyed).
Proof.
  apply (@decrypt_format_error Toy.platform Toy.defaults
           (js "base64:onlyonepart") (Toy.node Toy.keyed)).
  vm_compute. lia.
Defined.

(** ** C3: passphrase precondition of encrypt *)

(** C3, as stated, fails: with the passphrase variable unset, [encrypt]
    throws the configuration error only after both draws, twenty bytes of
    the random source being consumed. *)
Lemma encrypt_draws_before_passphrase :
  fst (encrypt (P := Toy.platform) Toy.defaults (js "x") (Toy.node ∅))
  = Threw (JsError masterKey_message)
  /\ drawn (snd (encrypt (P := Toy.platform) Toy.defaults (js "x") (Toy.node ∅)))
     = 20%nat
  /\ trace (snd (encrypt (P := Toy.platform) Toy.defaults (js "x") (Toy.node ∅)))
     = [GetRandomValues 8; GetRandomValues 12].
Proof. repeat split; vm_compute; reflexivity. Qed.

(** C3 (amended): when the passphrase variable is unset or shorter than 16
    code units, [encrypt] throws the configuration error after drawing the
    salt and the nonce (8 and 12 random bytes) and before any key import,
    key derivation or encryption. *)
Theorem encrypt_rejects_after_draws {P : Platform} M x w l :
  process_env w = Some (Some l) ->
  (forall k, env_at w l !! MASTER_KEY_VAR = Some k -> (length k < 16)%nat) ->
  encrypt M x w = (Threw (JsError masterKey_message), after_draws w).
Proof.
  intros Hl Hshort. rewrite encrypt_draws. unfold encrypt_with, bind.
  now rewrite (masterKey_rejects (after_draws w) l Hl Hshort).
Qed.

Lemma encrypt_rejects_after_draws_witness :
  encrypt (P := Toy.platform) Toy.defaults (js "x")
    (Toy.node {[ MASTER_KEY_VAR := js "too short" ]})
  = (Threw (JsError masterKey_message),
     after_draws (Toy.node {[ MASTER_KEY_VAR := js "too short" ]})).
Proof.
  apply (@encrypt_rejects_after_draws Toy.platform Toy.defaults (js "x")
           (Toy.node {[ MASTER_KEY_VAR := js "too short" ]}) 0%nat).
  - reflexivity.
  - intros k Hk. vm_compute in Hk. injection Hk as <-. vm_compute. lia.
Defined.

(** ** C4: failures after the format check *)




(** ** C5: loadSecrets on bad input *)

(** C5, as stated, fails: where [import.meta] exists without an [env] and
    the target is IMPORT_META, [loadSecrets] on a string that is no
    envelope throws, from the [getEnvObject] call of its [catch] clause. *)
Lemma loadSecrets_throws_without_target :
  fst (loadSecrets (P := Toy.platform) Toy.defaults (js "not-a-real-envelope")
         (Some EnvTarget.IMPORT_META) (Toy.esm false Toy.keyed))
  = Threw import_meta_env_unavailable.
Proof. vm_compute. reflexivity. Qed.

Definition load_failure_label : jsstring := js "Failed to load secrets:".

(** C5 (amended): for every input and every target that [getEnvObject]
    resolves, [loadSecrets] returns the target's environment object; and
    when decryption or JSON parsing fails, the error is logged and no
    environment object is changed. *)
Theorem loadSecrets_returns_when_target_resolves {P : Platform} M s target w l :
  fst (getEnvObject (default EnvTarget.PROCESS target) w) = Returned l ->
  exists w',
    loadSecrets M s target w = (Returned l, w')
    /\ (forall e w1, decrypt M s w = (Threw e, w1) ->
          heap w' = heap w /\ trace w' = trace w1 ++ [ConsoleError load_failure_label e])
    /\ (forall json w1 e,
          decrypt M s w = (Returned json, w1) -> JSON_parse json = Threw e ->
          heap w' = heap w /\ trace w' = trace w1 ++ [ConsoleError load_failure_label e]).
Proof.
  intros Hres. rewrite getEnvObject_resolves in Hres. cbn [fst] in Hres.
  unfold loadSecrets, try_catch. unfold bind at 1.
  destruct (decrypt M s w) as [[json|e] w1] eqn:Ed;
    pose proof (logs_decrypt M s _ _ _ Ed) as (Hp & Hm & Hh & _).
  - unfold bind at 1, lift at 1.
    destruct (JSON_parse json) as [payload|e] eqn:Ej.
    + destruct (mergeSecrets_stores payload (default EnvTarget.PROCESS target) w1 l)
        as (w' & Hrun & _); [now rewrite Hp, Hm|].
      exists w'. rewrite Hrun. split; [reflexivity|].
      split; [discriminate|]. intros json' w1' e' [= <- <-]. congruence.
    + unfold bind, console_error. rewrite getEnvObject_resolves.
      cbn [process_env import_meta_env with_trace]. rewrite Hp, Hm, Hres.
      eexists. split; [reflexivity|]. split; [discriminate|].
      intros json' w1' e' [= <- <-] He'.
      assert (e' = e) as -> by congruence. now split.
  - unfold bind, console_error. rewrite getEnvObject_resolves.
    cbn [process_env import_meta_env with_trace]. rewrite Hp, Hm, Hres.
    eexists. split; [reflexivity|]. split; [|discriminate].
    intros e' w1' [= <- <-]. now split.
Qed.

Lemma loadSecrets_returns_when_target_resolves_witness :
  exists w',
    loadSecrets (P := Toy.platform) Toy.defaults (js "not-a-real-envelope") None
      (Toy.node Toy.keyed) = (Returned 0%nat, w')
    /\ (forall e w1,
          decrypt (P := Toy.platform) Toy.defaults (js "not-a-real-envelope")
            (Toy.node Toy.keyed) = (Threw e, w1) ->
          heap w' = heap (Toy.node Toy.keyed)
          /\ trace w' = trace w1 ++ [ConsoleError load_failure_label e])
    /\ (forall json w1 e,
          decrypt (P := Toy.platform) Toy.defaults (js "not-a-real-envelope")
            (Toy.node Toy.keyed) = (Returned json, w1) ->
          JSON_parse (Platform := Toy.platform) json = Threw e ->
          heap w' = heap (Toy.node Toy.keyed)
          /\ trace w' = trace w1 ++ [ConsoleError load_failure_label e]).
Proof.
  apply (@loadSecrets_returns_when_target_resolves Toy.platform Toy.defaults
           (js "not-a-real-envelope") None (Toy.node Toy.keyed) 0%nat).
  reflexivity.
Defined.

(** ** C6: the rounds embedded in the envelope *)

(** C6, as stated, fails: encrypted under a rounds setting of 10 and
    decrypted after the default has changed, the plaintext U+FEFF "hi"
    comes back as "hi". The key is rightly derived with the embedded count;
    it is the decoder that drops the leading byte order mark. The envelope
    is the one of PBKDF2 and AES-GCM for the salt 1..8 and the nonce
    9..20. *)
Lemma embedded_rounds_bom_lost :
  fst (encrypt (P := WebCrypto.platform) (mkModule (RoundsText (js "10")))
         (0xFEFF :: js "hi") (Toy.node Toy.keyed))
  = Returned (js "base64:10:AQIDBAUGBwg=:CQoLDA0ODxAREhMU:doy6KCk68pYzaXIcIpxwBdmc7qyl")
  /\ fst (decrypt (P := WebCrypto.platform) Toy.defaults
            (js "base64:10:AQIDBAUGBwg=:CQoLDA0ODxAREhMU:doy6KCk68pYzaXIcIpxwBdmc7qyl")
            (Toy.node (<[PBKDF2_ROUNDS_VAR := js "7"]> Toy.keyed)))
     = Returned (js "hi")
  /\ js "hi" <> 0xFEFF :: js "hi".
Proof.
  split; [vm_compute; reflexivity|]. split; [vm_compute; reflexivity|].
  discriminate.
Qed.

Section EmbeddedRounds.
Context {P : Platform}.

(** Key derivation and decryption as the specification has them, with
    the iteration count as an argument and no module state. *)
Definition derive_with (iterations : number) (passphrase : jsstring)
    (salt : list Z) : Comp CryptoKey :=
  importedKey <-
    host_call ImportKey (subtle_importKey (TextEncoder_encode passphrase)) ;;
  host_call DeriveKey (subtle_deriveKey salt iterations importedKey).

Definition decrypt_with_rounds (iterations : number) (salt iv c : list Z)
    : Comp jsstring :=
  try_catch
    (passphrase <- masterKey ;;
     key <- derive_with iterations passphrase salt ;;
     decryptedBuffer <- host_call CipherDecrypt (subtle_decrypt iv key c) ;;
     ret (TextDecoder_decode decryptedBuffer))
    (fun error =>
       throw (JsError (js "Decryption failed: " ++ message_of error))).

Lemma rounds_segment rounds salt iv c :
  Forall (fun x => x <> COLON) rounds ->
  split_on COLON (envelope rounds salt iv c) !! 1%nat = Some rounds.
Proof.
  intros Hr. unfold envelope.
  rewrite split_on_segment by (vm_compute; repeat constructor; discriminate).
  now rewrite split_on_segment.
Qed.
End EmbeddedRounds.

(** C6 (amended): for a well-formed plaintext that does not start with
    U+FEFF, under a rounds setting that is the default or a plain decimal
    count, [encrypt] returns an envelope whose rounds segment is that
    setting, under a key derived with [Number] of that setting as
    iteration count; [decrypt] of the envelope, whatever the default rounds
    are by then, is the decryption that derives the key with the count read
    from that segment, which is the same number; and under the same
    passphrase it returns the plaintext. *)
Theorem decrypt_uses_embedded_rounds {P : Platform} {L : PlatformLaws P} M w p x :
  plain_rounds (PBKDF2_ROUNDS M) ->
  passphrase_in w p -> (16 <= length p)%nat ->
  Forall is_code_unit p -> Forall is_code_unit x ->
  well_formed x = true -> head x <> Some 0xFEFF ->
  exists e c key,
    e = envelope (rounds_text (PBKDF2_ROUNDS M))
          (random_bytes w 0 8) (random_bytes w 8 12) c
    /\ encrypt M x w
       = (Returned e, logged (after_draws w) [ImportKey; DeriveKey; CipherEncrypt])
    /\ derives_from p (random_bytes w 0 8) (rounds_number (PBKDF2_ROUNDS M)) key
    /\ subtle_encrypt (random_bytes w 8 12) key (TextEncoder_encode x) = Returned c
    /\ split_on COLON e !! 1%nat = Some (rounds_text (PBKDF2_ROUNDS M))
    /\ parseInt10 (rounds_text (PBKDF2_ROUNDS M)) = rounds_number (PBKDF2_ROUNDS M)
    /\ forall M' w',
         decrypt M' e w'
         = decrypt_with_rounds (parseInt10 (rounds_text (PBKDF2_ROUNDS M)))
             (random_bytes w 0 8) (random_bytes w 8 12) c w'
         /\ (passphrase_in w' p ->
             decrypt M' e w'
             = (Returned x, logged w' [ImportKey; DeriveKey; CipherDecrypt])).
Proof.
  intros Hplain Hp Hlen Hpu Hxu Hwf Hhd.
  destruct (encrypt_returns M w p x Hplain Hp Hlen Hpu Hxu)
    as (key & c & Hkey & Hc & Hcb & He).
  destruct (plain_rounds_spec _ Hplain) as (Hnum & Hparse & _ & Hcolon).
  eexists _, c, key. split; [reflexivity|]. split; [exact He|].
  split; [now rewrite Hnum|]. split; [exact Hc|].
  split; [now apply rounds_segment|]. split; [now rewrite Hparse, Hnum|].
  intros M' w'.
  rewrite decrypt_envelope; try assumption; try apply random_bytes_bytes.
  split; [reflexivity|]. intros Hp'. unfold try_catch.
  rewrite (decrypt_guarded_runs M' _ _ _ _ p key w' Hp' Hlen)
    by now rewrite Hparse.
  rewrite (decrypt_encrypt _ key _ c (TextEncoder_encode_bytes x Hxu) Hc).
  now rewrite text_roundtrip.
Qed.

Lemma decrypt_uses_embedded_rounds_witness :
  exists e c key,
    e = envelope (js "5000") (random_bytes (Toy.node Toy.keyed) 0 8)
          (random_bytes (Toy.node Toy.keyed) 8 12) c
    /\ encrypt (P := Toy.platform) (mkModule (RoundsText (js "5000"))) (js "hi")
         (Toy.node Toy.keyed)
       = (Returned e,
          logged (after_draws (Toy.node Toy.keyed)) [ImportKey; DeriveKey; CipherEncrypt])
    /\ derives_from (P := Toy.platform) Toy.passphrase
         (random_bytes (Toy.node Toy.keyed) 0 8)
         (rounds_number (P := Toy.platform) (RoundsText (js "5000"))) key
    /\ subtle_encrypt (Platform := Toy.platform)
         (random_bytes (Toy.node Toy.keyed) 8 12) key (TextEncoder_encode (js "hi"))
       = Returned c
    /\ split_on COLON e !! 1%nat = Some (js "5000")
    /\ parseInt10 (P := Toy.platform) (js "5000")
       = rounds_number (P := Toy.platform) (RoundsText (js "5000"))
    /\ forall M' w',
         decrypt (P := Toy.platform) M' e w'
         = decrypt_with_rounds (P := Toy.platform) (parseInt10 (js "5000"))
             (random_bytes (Toy.node Toy.keyed) 0 8)
             (random_bytes (Toy.node Toy.keyed) 8 12) c w'
         /\ (passphrase_in w' Toy.passphrase ->
             decrypt (P := Toy.platform) M' e w'
             = (Returned (js "hi"), logged w' [ImportKey; DeriveKey; CipherDecrypt])).
Proof.
  apply (@decrypt_uses_embedded_rounds Toy.platform toy_laws
           (mkModule (RoundsText (js "5000"))) (Toy.node Toy.keyed)
           Toy.passphrase (js "hi")).
  - cbn [plain_rounds PBKDF2_ROUNDS]. repeat split; try discriminate;
      vm_compute; first [reflexivity | lia | discriminate].
  - apply toy_passphrase_in. vm_compute. reflexivity.
  - vm_compute. lia.
  - apply code_units_checked. vm_compute. reflexivity.
  - apply code_units_checked. vm_compute. reflexivity.
  - reflexivity.
  - vm_compute. discriminate.
Defined.

(** ** C7: when the rounds setting is read *)

(** The rounds segment of an envelope. *)
Definition embedded_rounds (o : outcome jsstring) : option jsstring :=
  match o with
  | Returned e => split_on COLON e !! 1%nat
  | Threw _ => None
  end.

(** C7, as stated, fails: the module is loaded with the rounds variable
    unset; setting the variable to 5000 between two [encrypt] calls changes
    nothing, both envelopes embed 1000000. *)
Lemma rounds_fixed_at_load :
  fst (load_module (Toy.node Toy.keyed)) = Returned Toy.defaults
  /\ embedded_rounds
       (fst (encrypt (P := Toy.platform) Toy.defaults (js "x") (Toy.node Toy.keyed)))
     = Some (js "1000000")
  /\ embedded_rounds
       (fst (encrypt (P := Toy.platform) Toy.defaults (js "x")
               (Toy.node (<[PBKDF2_ROUNDS_VAR := js "5000"]> Toy.keyed))))
     = Some (js "1000000").
Proof. repeat split; vm_compute; reflexivity. Qed.

(** The value of the module's constant for a value of the variable. *)
Definition rounds_at_load (v : option jsstring) : rounds_value :=
  match v with
  | Some (c :: s) => RoundsText (c :: s)
  | _ => RoundsNumber 1000000
  end.

(** C7 (amended): the rounds value that [encrypt] uses and embeds is the
    value of the rounds variable when the module was loaded (1000000 if it
    was unset or empty then), whatever the variable holds when [encrypt] is
    called: the key that encrypted the plaintext was derived with [Number]
    of that value as iteration count, and the rounds segment of the
    envelope is its text. *)
Theorem encrypt_embeds_load_time_rounds {P : Platform} w0 w0' M x w e w' :
  load_module w0 = (Returned M, w0') ->
  encrypt M x w = (Returned e, w') ->
  exists l0 p key c,
    process_env w0 = Some (Some l0)
    /\ PBKDF2_ROUNDS M = rounds_at_load (env_at w0 l0 !! PBKDF2_ROUNDS_VAR)
    /\ passphrase_in w p
    /\ derives_from p (random_bytes w 0 8)
         (rounds_number (rounds_at_load (env_at w0 l0 !! PBKDF2_ROUNDS_VAR))) key
    /\ subtle_encrypt (random_bytes w 8 12) key (TextEncoder_encode x) = Returned c
    /\ e = envelope (rounds_text (rounds_at_load (env_at w0 l0 !! PBKDF2_ROUNDS_VAR)))
             (random_bytes w 0 8) (random_bytes w 8 12) c.
Proof.
  unfold load_module, bind, process_env_get, ret.
  destruct (process_env w0) as [[l0|]|]; try discriminate.
  rewrite (get_property_plain _ PBKDF2_ROUNDS_VAR _ eq_refl).
  intros [= <- _] He.
  apply encrypt_returned in He as (p & key & c & Hp & _ & Hk & Hc & -> & _).
  exists l0, p, key, c. cbn [PBKDF2_ROUNDS] in *.
  assert (Hr : match env_at w0 l0 !! PBKDF2_ROUNDS_VAR with
               | Some (c0 :: s) => RoundsText (c0 :: s)
               | _ => RoundsNumber 1000000
               end = rounds_at_load (env_at w0 l0 !! PBKDF2_ROUNDS_VAR))
    by reflexivity.
  rewrite Hr in *. now repeat split.
Qed.

Lemma encrypt_embeds_load_time_rounds_witness :
  exists l0 p key c,
    process_env (Toy.node (<[PBKDF2_ROUNDS_VAR := js "5000"]> Toy.keyed))
    = Some (Some l0)
    /\ RoundsText (js "5000")
       = rounds_at_load
           (env_at (Toy.node (<[PBKDF2_ROUNDS_VAR := js "5000"]> Toy.keyed)) l0
              !! PBKDF2_ROUNDS_VAR)
    /\ passphrase_in (Toy.node (<[PBKDF2_ROUNDS_VAR := js "9"]> Toy.keyed)) p
    /\ derives_from (P := Toy.platform) p
         (random_bytes (Toy.node (<[PBKDF2_ROUNDS_VAR := js "9"]> Toy.keyed)) 0 8)
         (rounds_number (P := Toy.platform)
            (rounds_at_load
               (env_at (Toy.node (<[PBKDF2_ROUNDS_VAR := js "5000"]> Toy.keyed)) l0
                  !! PBKDF2_ROUNDS_VAR))) key
    /\ subtle_encrypt (Platform := Toy.platform)
         (random_bytes (Toy.node (<[PBKDF2_ROUNDS_VAR := js "9"]> Toy.keyed)) 8 12)
         key (TextEncoder_encode (js "x")) = Returned c
    /\ js "base64:5000:AQIDBAUGBwg=:CQoLDA0ODxAREhMU:4/w="
       = envelope
           (rounds_text
              (rounds_at_load
                 (env_at (Toy.node (<[PBKDF2_ROUNDS_VAR := js "5000"]> Toy.keyed)) l0
                    !! PBKDF2_ROUNDS_VAR)))
           (random_bytes (Toy.node (<[PBKDF2_ROUNDS_VAR := js "9"]> Toy.keyed)) 0 8)
           (random_bytes (Toy.node (<[PBKDF2_ROUNDS_VAR := js "9"]> Toy.keyed)) 8 12)
           c.
Proof.
  apply (@encrypt_embeds_load_time_rounds Toy.platform
           (Toy.node (<[PBKDF2_ROUNDS_VAR := js "5000"]> Toy.keyed))
           (Toy.node (<[PBKDF2_ROUNDS_VAR := js "5000"]> Toy.keyed))
           (mkModule (RoundsText (js "5000"))) (js "x")
           (Toy.node (<[PBKDF2_ROUNDS_VAR := js "9"]> Toy.keyed))
           (js "base64:5000:AQIDBAUGBwg=:CQoLDA0ODxAREhMU:4/w=")
           (logged (after_draws (Toy.node (<[PBKDF2_ROUNDS_VAR := js "9"]> Toy.keyed)))
              [ImportKey; DeriveKey; CipherEncrypt])).
  - vm_compute. reflexivity.
  - vm_compute. reflexivity.
Defined.

(** ** C8: an altered ciphertext *)





(** ** C9: merge semantics *)

(** C9, as stated, fails on Node's [process.env]: of the payload
    [{"a=b": "c", "A": "1\u00002"}] the first entry is not written, its
    name holding [=], and the second is cut at its NUL. *)
Lemma entries_not_written :
  fst (mergeSecrets [(js "a=b", js "c"); (js "A", [49; 0; 50])] EnvTarget.PROCESS
         (Toy.node ∅))
  = Returned 0%nat
  /\ process_env_get (js "a=b")
       (snd (mergeSecrets [(js "a=b", js "c"); (js "A", [49; 0; 50])]
               EnvTarget.PROCESS (Toy.node ∅)))
     = (Returned None,
        snd (mergeSecrets [(js "a=b", js "c"); (js "A", [49; 0; 50])]
               EnvTarget.PROCESS (Toy.node ∅)))
  /\ process_env_get (js "A")
       (snd (mergeSecrets [(js "a=b", js "c"); (js "A", [49; 0; 50])]
               EnvTarget.PROCESS (Toy.node ∅)))
     = (Returned (Some (js "1")),
        snd (mergeSecrets [(js "a=b", js "c"); (js "A", [49; 0; 50])]
               EnvTarget.PROCESS (Toy.node ∅))).
Proof. repeat split; vm_compute; reflexivity. Qed.

(** C9 (amended): when the target resolves to an environment object that
    records each entry of the payload as it is given, [mergeSecrets]
    returns the reference of that object, in which every key of the payload
    now holds the payload's value and every other key holds what it held;
    no other object is touched, and the target still resolves to that same
    object, so every holder of the reference sees the new entries. *)
Theorem mergeSecrets_writes_payload payload target w l :
  fst (getEnvObject target w) = Returned l ->
  forallb (taken_as_given (kind_of w l)) payload = true ->
  NoDup payload.*1 ->
  exists w',
    mergeSecrets payload target w = (Returned l, w')
    /\ (forall k v, (k, v) ∈ payload -> env_at w' l !! k = Some v)
    /\ (forall k, k ∉ payload.*1 -> env_at w' l !! k = env_at w l !! k)
    /\ (forall l', l' <> l -> heap w' !! l' = heap w !! l')
    /\ fst (getEnvObject target w') = Returned l.
Proof.
  rewrite getEnvObject_resolves. cbn [fst]. intros Hres Hgiven Hnd.
  destruct (mergeSecrets_stores payload target w l Hres)
    as (w' & Hrun & Hpe & Hme & _ & _ & _ & _ & Henv & Hother).
  rewrite (assign_all_given _ _ _ Hgiven) in Henv.
  exists w'. split; [exact Hrun|].
  split; [|split; [|split]].
  - intros k v Hk. rewrite Henv. now apply inserts_lookup.
  - intros k Hk. rewrite Henv. now apply inserts_lookup_other.
  - exact Hother.
  - rewrite getEnvObject_resolves. cbn [fst]. now rewrite Hpe, Hme.
Qed.

Lemma mergeSecrets_writes_payload_witness :
  exists w',
    mergeSecrets [(js "A", js "1"); (js "B", js "2")] EnvTarget.PROCESS
      (Toy.node {[ js "A" := js "0"; js "C" := js "3" ]}) = (Returned 0%nat, w')
    /\ (forall k v,
          (k, v) ∈ [(js "A", js "1"); (js "B", js "2")] -> env_at w' 0 !! k = Some v)
    /\ (forall k,
          k ∉ [(js "A", js "1"); (js "B", js "2")].*1 ->
          env_at w' 0 !! k
          = env_at (Toy.node {[ js "A" := js "0"; js "C" := js "3" ]}) 0 !! k)
    /\ (forall l', l' <> 0%nat ->
          heap w' !! l' = heap (Toy.node {[ js "A" := js "0"; js "C" := js "3" ]}) !! l')
    /\ fst (getEnvObject EnvTarget.PROCESS w') = Returned 0%nat.
Proof.
  apply (mergeSecrets_writes_payload [(js "A", js "1"); (js "B", js "2")]
           EnvTarget.PROCESS (Toy.node {[ js "A" := js "0"; js "C" := js "3" ]}) 0%nat).
  - reflexivity.
  - vm_compute. reflexivity.
  - apply (bool_decide_unpack _). vm_compute. exact I.
Defined.

(** ** C10: a context without import.meta *)



(** * Further properties of the module *)

(** ** src/utils.ts *)

(** The two helpers are inverse on byte arrays: every byte array has a
    base64 text, and decoding that text gives the array back. *)
Theorem utils_base64_roundtrip bs :
  Forall is_byte bs ->
  exists s, uint8ArrayToBase64 bs = Returned s /\ base64ToUint8Array s = Returned bs.
Proof.
  intros Hb. exists (base64_encode bs). split.
  - now apply btoa_bytes.
  - now apply base64_roundtrip.
Qed.

Lemma utils_base64_roundtrip_witness :
  exists s,
    uint8ArrayToBase64 [1; 2; 3; 4; 5] = Returned s
    /\ base64ToUint8Array s = Returned [1; 2; 3; 4; 5].
Proof.
  apply (utils_base64_roundtrip [1; 2; 3; 4; 5]).
  repeat (apply List.Forall_cons; [unfold is_byte; lia|]). apply List.Forall_nil.
Defined.

Definition is_base64_text (c : Z) : Prop := b64_index c <> None \/ c = 61.

Lemma sextets_length bs :
  (length (sextets_of_bytes bs) + length (b64_padding (length bs))
   = 4 * ((length bs + 2) / 3))%nat.
Proof.
  induction bs as [|a|a b|a b c l IH] using list_ind3; try reflexivity.
  cbn [sextets_of_bytes length].
  replace (b64_padding (S (S (S (length l))))) with (b64_padding (length l)).
  - replace (S (S (S (length l))) + 2)%nat with ((length l + 2) + 1 * 3)%nat by lia.
    rewrite Nat.div_add by lia. lia.
  - unfold b64_padding.
    replace (S (S (S (length l)))) with (length l + 1 * 3)%nat by lia.
    now rewrite Nat.Div0.mod_add.
Qed.

(** The text of [n] bytes has 4 * ceil(n / 3) characters, each of the
    base64 alphabet or the padding sign. *)
Theorem uint8ArrayToBase64_shape bs s :
  uint8ArrayToBase64 bs = Returned s ->
  length s = (4 * ((length bs + 2) / 3))%nat /\ Forall is_base64_text s.
Proof.
  unfold uint8ArrayToBase64, btoa.
  destruct (forallb _ bs) eqn:Hall; [|discriminate]. intros [= <-].
  assert (Hb : Forall is_byte bs).
  { rewrite forallb_forall in Hall. apply Forall_forall. intros b Hin.
    apply list_elem_of_In in Hin.
    specialize (Hall b Hin). rewrite andb_true_iff, !Z.leb_le in Hall.
    unfold is_byte. lia. }
  split.
  - unfold base64_encode. rewrite length_app, length_map. apply sextets_length.
  - unfold base64_encode. apply Forall_app. split.
    + apply (Forall_mapped is_sextet); [|now apply sextets_in_range].
      intros i Hi. left. now rewrite b64_index_char.
    + destruct (b64_padding_cases (length bs)) as [-> | [-> | ->]];
        repeat (apply List.Forall_cons; [now right|]); apply List.Forall_nil.
Qed.

Lemma uint8ArrayToBase64_shape_witness :
  length (js "AQIDBAU=") = (4 * ((length [1; 2; 3; 4; 5] + 2) / 3))%nat
  /\ Forall is_base64_text (js "AQIDBAU=").
Proof.
  apply (uint8ArrayToBase64_shape [1; 2; 3; 4; 5] (js "AQIDBAU=")).
  vm_compute. reflexivity.
Defined.

Lemma elem_of_rev (c : Z) d : c ∈ rev d <-> c ∈ d.
Proof. rewrite !list_elem_of_In. symmetry. apply in_rev. Qed.

Lemma strip_padding_keeps c d :
  c ∈ d -> c <> 61 -> c ∈ strip_padding d.
Proof.
  intros Hin Hc. unfold strip_padding.
  destruct (_ =? 0); [|exact Hin].
  assert (Hrev : c ∈ rev d) by now apply (proj2 (elem_of_rev _ _)).
  destruct (rev d) as [|x r] eqn:E; [exact Hin|].
  assert (Hr : x = 61 -> c ∈ rev r).
  { intros ->. apply (proj2 (elem_of_rev _ _)).
    apply elem_of_cons in Hrev as [?|?]; congruence. }
  destruct (Z.eq_dec x 61) as [->|Hx].
  - destruct r as [|y r']; [exact (Hr eq_refl)|].
    destruct (Z.eq_dec y 61) as [->|Hy].
    + apply elem_of_rev. specialize (Hr eq_refl).
      apply (proj1 (elem_of_rev _ _)) in Hr.
      apply elem_of_cons in Hr as [?|?]; congruence.
    + replace (match y with 61 => rev r' | _ => rev (y :: r') end)
        with (rev (y :: r')); [exact (Hr eq_refl)|].
      destruct y as [|q|q]; try reflexivity.
      repeat (destruct q as [q|q|]; try reflexivity). contradiction.
  - replace (match x with
             | 61 => match r with 61 :: r0 => rev r0 | _ => rev r end
             | _ => d
             end) with d; [exact Hin|].
    destruct x as [|q|q]; try reflexivity.
    repeat (destruct q as [q|q|]; try reflexivity). contradiction.
Qed.

Lemma indices_of_none c d : c ∈ d -> b64_index c = None -> indices_of d = None.
Proof.
  induction d as [|x d IH]; intros Hin Hc; [now apply elem_of_nil in Hin|].
  cbn [indices_of]. apply elem_of_cons in Hin as [<-|Hin].
  - now rewrite Hc.
  - rewrite (IH Hin Hc). now destruct (b64_index x).
Qed.

(** A character that is neither of the base64 alphabet, nor the padding
    sign, nor ASCII whitespace makes the decoder throw, wherever it is. *)
Theorem base64ToUint8Array_rejects c s :
  c ∈ s -> b64_index c = None -> c <> 61 -> is_ascii_whitespace c = false ->
  base64ToUint8Array s = Threw InvalidCharacterError.
Proof.
  intros Hin Hidx Hpad Hws. unfold base64ToUint8Array, atob.
  set (d := strip_padding _).
  assert (Hd : c ∈ d).
  { apply strip_padding_keeps; [|exact Hpad].
    apply list_elem_of_filter. split; [|exact Hin]. now rewrite Hws. }
  destruct (_ =? 1); [reflexivity|].
  now rewrite (indices_of_none c d Hd Hidx).
Qed.

Lemma base64ToUint8Array_rejects_witness :
  base64ToUint8Array (js "AQID-AU=") = Threw InvalidCharacterError.
Proof.
  apply (base64ToUint8Array_rejects 45 (js "AQID-AU=")).
  - apply list_elem_of_In. vm_compute. repeat first [left; reflexivity | right].
  - reflexivity.
  - lia.
  - reflexivity.
Defined.

(** ** src/secrets.ts: masterKey *)

(** [masterKey] returns exactly the passphrases of at least 16 code units
    that the variable holds, and changes nothing. *)
Theorem masterKey_returns_iff w k w' :
  masterKey w = (Returned k, w')
  <-> w' = w /\ passphrase_in w k /\ (16 <= length k)%nat.
Proof.
  split.
  - apply masterKey_returned.
  - intros (-> & Hp & Hlen). now apply masterKey_returns.
Qed.

(** ** What encrypt and decrypt do to the world *)

Definition is_host_event (ev : Event) : Prop :=
  match ev with
  | ImportKey | DeriveKey | CipherEncrypt | CipherDecrypt => True
  | GetRandomValues _ | ConsoleError _ _ => False
  end.

(** The trace grew by calls of the crypto interface, and nothing else
    changed. *)
Definition quiet (w w' : World) : Prop :=
  only_logs w w'
  /\ exists evs, trace w' = trace w ++ evs /\ Forall is_host_event evs.

Lemma quiet_refl w : quiet w w.
Proof.
  split; [apply only_logs_refl|]. exists []. split; [now rewrite app_nil_r|].
  apply List.Forall_nil.
Qed.

Lemma quiet_trans a b c : quiet a b -> quiet b c -> quiet a c.
Proof.
  intros [Hab (e1 & H1 & F1)] [Hbc (e2 & H2 & F2)]. split.
  - now apply (only_logs_trans a b c).
  - exists (e1 ++ e2). split; [now rewrite H2, H1, app_assoc|].
    apply Forall_app. now split.
Qed.

Lemma quiet_host_call {A} ev (o : outcome A) :
  is_host_event ev -> keeps quiet (host_call ev o).
Proof.
  intros Hev w r w' [= _ <-]. split; [now repeat split|].
  exists [ev]. split; [reflexivity|]. now apply List.Forall_cons.
Qed.

Lemma quiet_masterKey : keeps quiet masterKey.
Proof.
  intros w r w' H.
  replace w' with w; [apply quiet_refl|].
  revert H. unfold masterKey, bind, process_env_get.
  destruct (process_env w) as [[l|]|]; try (now intros [= _ <-]).
  destruct (get_property _ MASTER_KEY_VAR _) as [p|]; [|now intros [= _ <-]].
  destruct (_ || _); now intros [= _ <-].
Qed.

Section QuietSecrets.
Context {P : Platform}.
Variable M : ModuleState.

Lemma quiet_deriveKey p salt iterations :
  keeps quiet (deriveKey M p salt iterations).
Proof.
  apply (keeps_bind quiet quiet_trans).
  - now apply quiet_host_call.
  - intros a. now apply quiet_host_call.
Qed.

Lemma quiet_decrypt_guarded rounds salt iv c :
  keeps quiet (decrypt_guarded M rounds salt iv c).
Proof.
  unfold decrypt_guarded.
  apply (keeps_bind quiet quiet_trans); [apply quiet_masterKey | intros p].
  apply (keeps_bind quiet quiet_trans); [apply quiet_deriveKey | intros key].
  apply (keeps_bind quiet quiet_trans); [now apply quiet_host_call | intros d].
  apply (keeps_ret quiet quiet_refl).
Qed.

Lemma quiet_encrypt_with x salt iv : keeps quiet (encrypt_with M x salt iv).
Proof.
  unfold encrypt_with.
  apply (keeps_bind quiet quiet_trans); [apply quiet_masterKey | intros p].
  apply (keeps_bind quiet quiet_trans); [apply quiet_deriveKey | intros key].
  apply (keeps_bind quiet quiet_trans); [now apply quiet_host_call | intros d].
  apply (keeps_bind quiet quiet_trans); [apply (keeps_lift quiet quiet_refl) | intros s1].
  apply (keeps_bind quiet quiet_trans); [apply (keeps_lift quiet quiet_refl) | intros s2].
  apply (keeps_bind quiet quiet_trans); [apply (keeps_lift quiet quiet_refl) | intros s3].
  apply (keeps_ret quiet quiet_refl).
Qed.
End QuietSecrets.

(** Whatever its input and whatever the outcome, [decrypt] draws no
    randomness, writes to no environment object and logs nothing to the
    console: the world changes only by calls of the crypto interface. *)
Theorem decrypt_is_quiet {P : Platform} M s w r w' :
  decrypt M s w = (r, w') ->
  process_env w' = process_env w /\ import_meta_env w' = import_meta_env w
  /\ heap w' = heap w /\ drawn w' = drawn w
  /\ exists evs, trace w' = trace w ++ evs /\ Forall is_host_event evs.
Proof.
  intros H.
  assert (Hq : quiet w w').
  { revert w r w' H. unfold decrypt.
    destruct (split_on COLON (encodedData_of s)) as [|p0 [|p1 [|p2 [|p3 [|p4 t]]]]];
      try apply (keeps_throw quiet quiet_refl).
    apply (keeps_bind quiet quiet_trans); [apply (keeps_lift quiet quiet_refl) | intros salt].
    apply (keeps_bind quiet quiet_trans); [apply (keeps_lift quiet quiet_refl) | intros iv].
    apply (keeps_bind quiet quiet_trans); [apply (keeps_lift quiet quiet_refl) | intros c].
    apply (keeps_try_catch quiet quiet_trans).
    - apply quiet_decrypt_guarded.
    - intros e. apply (keeps_throw quiet quiet_refl). }
  destruct Hq as [(H1 & H2 & H3 & _ & H5 & _) H6]. now repeat split.
Qed.

Lemma decrypt_is_quiet_witness :
  process_env (logged (Toy.node Toy.keyed) [ImportKey; DeriveKey; CipherDecrypt])
  = process_env (Toy.node Toy.keyed)
  /\ import_meta_env (logged (Toy.node Toy.keyed) [ImportKey; DeriveKey; CipherDecrypt])
     = import_meta_env (Toy.node Toy.keyed)
  /\ heap (logged (Toy.node Toy.keyed) [ImportKey; DeriveKey; CipherDecrypt])
     = heap (Toy.node Toy.keyed)
  /\ drawn (logged (Toy.node Toy.keyed) [ImportKey; DeriveKey; CipherDecrypt])
     = drawn (Toy.node Toy.keyed)
  /\ exists evs,
       trace (logged (Toy.node Toy.keyed) [ImportKey; DeriveKey; CipherDecrypt])
       = trace (Toy.node Toy.keyed) ++ evs
       /\ Forall is_host_event evs.
Proof.
  apply (@decrypt_is_quiet Toy.platform Toy.defaults
           (js "base64:1000000:AQIDBAUGBwg=:CQoLDA0ODxAREhMU:i1w=")
           (Toy.node Toy.keyed) (Returned (js "h"))).
  vm_compute. reflexivity.
Defined.

(** Whatever the outcome, [encrypt] consumes exactly twenty bytes of the
    random source, in two draws of 8 and 12 bytes that precede everything
    else it does, and it writes to no environment object. *)
Theorem encrypt_draws_twenty_bytes {P : Platform} M x w r w' :
  encrypt M x w = (r, w') ->
  drawn w' = (drawn w + 20)%nat
  /\ heap w' = heap w
  /\ exists evs,
       trace w' = trace w ++ GetRandomValues 8 :: GetRandomValues 12 :: evs
       /\ Forall is_host_event evs.
Proof.
  rewrite encrypt_draws. intros H.
  apply (quiet_encrypt_with M) in H.
  destruct H as [(_ & _ & Hh & _ & Hd & _) (evs & Ht & Hf)].
  split; [exact Hd|]. split; [exact Hh|].
  exists evs. split; [|exact Hf].
  rewrite Ht. unfold after_draws. cbn [trace with_trace].
  now rewrite <- app_assoc.
Qed.

Lemma encrypt_draws_twenty_bytes_witness :
  drawn (after_draws (Toy.node ∅)) = (drawn (Toy.node ∅) + 20)%nat
  /\ heap (after_draws (Toy.node ∅)) = heap (Toy.node ∅)
  /\ exists evs,
       trace (after_draws (Toy.node ∅))
       = trace (Toy.node ∅) ++ GetRandomValues 8 :: GetRandomValues 12 :: evs
       /\ Forall is_host_event evs.
Proof.
  apply (@encrypt_draws_twenty_bytes Toy.platform Toy.defaults (js "x")
           (Toy.node ∅) (Threw (JsError masterKey_message))).
  vm_compute. reflexivity.
Defined.

(** ** src/secrets.ts: encrypt *)

Lemma btoa_returns bs s :
  btoa bs = Returned s -> Forall is_byte bs /\ s = base64_encode bs.
Proof.
  unfold btoa. destruct (forallb _ bs) eqn:Hall; [|discriminate].
  intros [= <-]. split; [|reflexivity].
  rewrite forallb_forall in Hall. apply Forall_forall. intros b Hin.
  apply list_elem_of_In in Hin.
  specialize (Hall b Hin). rewrite andb_true_iff, !Z.leb_le in Hall.
  unfold is_byte. lia.
Qed.

Lemma base64_encode_length bs :
  length (base64_encode bs) = (4 * ((length bs + 2) / 3))%nat.
Proof.
  unfold base64_encode. rewrite length_app, length_map. apply sextets_length.
Qed.

(** A returned envelope has exactly five segments: the tag [base64], the
    rounds text, and the base64 texts of the salt (12 characters), of the
    nonce (16 characters) and of the cipher's output. *)
Theorem encrypt_envelope_format {P : Platform} M x w e w' :
  Forall (fun c => c <> COLON) (rounds_text (PBKDF2_ROUNDS M)) ->
  encrypt M x w = (Returned e, w') ->
  exists c,
    Forall is_byte c
    /\ split_on COLON e
       = [ENCODING; rounds_text (PBKDF2_ROUNDS M);
          base64_encode (random_bytes w 0 8);
          base64_encode (random_bytes w 8 12); base64_encode c]
    /\ length (base64_encode (random_bytes w 0 8)) = 12%nat
    /\ length (base64_encode (random_bytes w 8 12)) = 16%nat.
Proof.
  intros Hcolon. rewrite encrypt_draws. unfold encrypt_with.
  generalize (after_draws w). intros w0.
  unfold bind at 1. destruct (masterKey w0) as [[p|?] w1]; [|discriminate].
  unfold bind at 1. destruct (deriveKey M p _ None w1) as [[key|?] w2]; [|discriminate].
  unfold bind at 1. destruct (host_call _ _ w2) as [[buf|?] w3]; [|discriminate].
  unfold bind at 1, lift at 1, uint8ArrayToBase64 at 1.
  rewrite (btoa_bytes _ (random_bytes_bytes w 0 8)).
  unfold bind at 1, lift at 1, uint8ArrayToBase64 at 1.
  rewrite (btoa_bytes _ (random_bytes_bytes w 8 12)).
  unfold bind at 1, lift at 1, uint8ArrayToBase64 at 1.
  destruct (btoa buf) as [s3|?] eqn:Eb; [|discriminate].
  apply btoa_returns in Eb as [Hbuf ->].
  unfold ret. intros H.
  match type of H with
  | (Returned ?t, _) = _ => assert (He : e = t) by congruence
  end.
  subst e. clear H. exists buf. split; [exact Hbuf|]. split.
  - rewrite split_on_segment
      by (unfold ENCODING, COLON; repeat (apply List.Forall_cons; [discriminate|]);
          apply List.Forall_nil).
    rewrite split_on_segment by assumption.
    rewrite split_on_segment
      by (apply base64_encode_no_colon, random_bytes_bytes).
    rewrite split_on_segment
      by (apply base64_encode_no_colon, random_bytes_bytes).
    now rewrite split_on_plain by now apply base64_encode_no_colon.
  - now rewrite !base64_encode_length, !random_bytes_length.
Qed.

Lemma encrypt_envelope_format_witness :
  exists c,
    Forall is_byte c
    /\ split_on COLON (js "base64:1000000:AQIDBAUGBwg=:CQoLDA0ODxAREhMU:i1w=")
       = [ENCODING; rounds_text (PBKDF2_ROUNDS Toy.defaults);
          base64_encode (random_bytes (Toy.node Toy.keyed) 0 8);
          base64_encode (random_bytes (Toy.node Toy.keyed) 8 12); base64_encode c]
    /\ length (base64_encode (random_bytes (Toy.node Toy.keyed) 0 8)) = 12%nat
    /\ length (base64_encode (random_bytes (Toy.node Toy.keyed) 8 12)) = 16%nat.
Proof.
  apply (@encrypt_envelope_format Toy.platform Toy.defaults (js "h")
           (Toy.node Toy.keyed)
           (js "base64:1000000:AQIDBAUGBwg=:CQoLDA0ODxAREhMU:i1w=")
           (logged (after_draws (Toy.node Toy.keyed))
              [ImportKey; DeriveKey; CipherEncrypt])).
  - apply digits_no_colon. vm_compute. reflexivity.
  - vm_compute. reflexivity.
Defined.

(** A leading U+FEFF of the plaintext is lost, and only that: for a
    well-formed [s], decrypting the envelope of U+FEFF followed by [s]
    returns [s]. *)
Theorem roundtrip_drops_leading_bom {P : Platform} {L : PlatformLaws P} M w p s :
  plain_rounds (PBKDF2_ROUNDS M) ->
  passphrase_in w p -> (16 <= length p)%nat ->
  Forall is_code_unit p -> Forall is_code_unit s -> well_formed s = true ->
  exists w', (e <- encrypt M (0xFEFF :: s) ;; decrypt M e) w = (Returned s, w').
Proof.
  intros Hplain Hp Hlen Hpu Hsu Hwf.
  assert (Hxu : Forall is_code_unit (0xFEFF :: s))
    by (apply List.Forall_cons; [unfold is_code_unit; lia | exact Hsu]).
  destruct (roundtrip_general M w p _ Hplain Hp Hlen Hpu Hxu) as (c & _ & He & Hd).
  eexists. unfold bind. rewrite He.
  rewrite (Hd M _ (passphrase_in_logged _ _ _ (passphrase_in_after_draws _ _ Hp))).
  now rewrite text_roundtrip_bom.
Qed.

Lemma roundtrip_drops_leading_bom_witness :
  exists w',
    (e <- encrypt (P := Toy.platform) Toy.defaults (0xFEFF :: js "{}") ;;
     decrypt (P := Toy.platform) Toy.defaults e) (Toy.node Toy.keyed)
    = (Returned (js "{}"), w').
Proof.
  apply (@roundtrip_drops_leading_bom Toy.platform toy_laws Toy.defaults
           (Toy.node Toy.keyed) Toy.passphrase (js "{}")).
  - reflexivity.
  - apply toy_passphrase_in. vm_compute. reflexivity.
  - vm_compute. lia.
  - apply code_units_checked. vm_compute. reflexivity.
  - apply code_units_checked. vm_compute. reflexivity.
  - reflexivity.
Defined.

(** ** src/secrets.ts: decrypt *)

(** The [base64:] tag is optional: an input without it is read as the same
    input with it. *)
Theorem decrypt_prefix_optional {P : Platform} M body w :
  startsWith body (ENCODING ++ [COLON]) = false ->
  decrypt M (ENCODING ++ COLON :: body) w = decrypt M body w.
Proof.
  intros Hno.
  assert (Hbody : encodedData_of body = body)
    by (unfold encodedData_of; now rewrite Hno).
  unfold decrypt. now rewrite encodedData_of_prefixed, Hbody.
Qed.

Lemma decrypt_prefix_optional_witness :
  decrypt (P := Toy.platform) Toy.defaults
    (ENCODING ++ COLON :: js "1000000:AQIDBAUGBwg=:CQoLDA0ODxAREhMU:i1w=")
    (Toy.node Toy.keyed)
  = decrypt (P := Toy.platform) Toy.defaults
      (js "1000000:AQIDBAUGBwg=:CQoLDA0ODxAREhMU:i1w=") (Toy.node Toy.keyed).
Proof.
  apply (@decrypt_prefix_optional Toy.platform Toy.defaults
           (js "1000000:AQIDBAUGBwg=:CQoLDA0ODxAREhMU:i1w=") (Toy.node Toy.keyed)).
  reflexivity.
Defined.

(** The format check counts colons: unless the input, past the optional
    tag, holds exactly three, [decrypt] throws the format error, reporting
    one segment more than there are colons. *)
Theorem decrypt_counts_colons {P : Platform} M s w :
  count_occ Z.eq_dec (encodedData_of s) COLON <> 3%nat ->
  decrypt M s w
  = (Threw (JsError
              (js "Encrypted payload invalid. Expected 4 sections but got "
               ++ decimal_of_nat (S (count_occ Z.eq_dec (encodedData_of s) COLON)))),
     w).
Proof.
  intros Hn. rewrite <- split_on_length.
  assert (Hlen : length (split_on COLON (encodedData_of s)) <> 4%nat)
    by (rewrite split_on_length; lia).
  unfold decrypt.
  destruct (split_on COLON (encodedData_of s)) as [|p0 [|p1 [|p2 [|p3 [|p4 r]]]]];
    try reflexivity.
  now contradiction Hlen.
Qed.

Lemma decrypt_counts_colons_witness :
  decrypt (P := Toy.platform) Toy.defaults (js "a:b:c:d:e") (Toy.node ∅)
  = (Threw (JsError
              (js "Encrypted payload invalid. Expected 4 sections but got "
               ++ decimal_of_nat
                    (S (count_occ Z.eq_dec (encodedData_of (js "a:b:c:d:e")) COLON)))),
     Toy.node ∅).
Proof.
  apply (@decrypt_counts_colons Toy.platform Toy.defaults (js "a:b:c:d:e") (Toy.node ∅)).
  vm_compute. lia.
Defined.

(** With the passphrase unset or too short, a well-formed envelope is
    rejected with the configuration message behind the "Decryption failed: "
    prefix, before any call of the crypto interface. *)
Theorem decrypt_without_passphrase {P : Platform} M s w l p0 p1 p2 p3 salt iv c :
  split_on COLON (encodedData_of s) = [p0; p1; p2; p3] ->
  base64ToUint8Array p1 = Returned salt ->
  base64ToUint8Array p2 = Returned iv ->
  base64ToUint8Array p3 = Returned c ->
  process_env w = Some (Some l) ->
  (forall k, env_at w l !! MASTER_KEY_VAR = Some k -> (length k < 16)%nat) ->
  decrypt M s w
  = (Threw (JsError (js "Decryption failed: " ++ masterKey_message)), w).
Proof.
  intros Hs H1 H2 H3 Hl Hshort. unfold decrypt. rewrite Hs.
  unfold bind at 1 2 3, lift. rewrite H1, H2, H3.
  unfold try_catch, decrypt_guarded, bind.
  now rewrite (masterKey_rejects w l Hl Hshort).
Qed.

Lemma decrypt_without_passphrase_witness :
  decrypt (P := Toy.platform) Toy.defaults
    (js "base64:1000000:AQIDBAUGBwg=:CQoLDA0ODxAREhMU:i1w=") (Toy.node ∅)
  = (Threw (JsError (js "Decryption failed: " ++ masterKey_message)), Toy.node ∅).
Proof.
  apply (@decrypt_without_passphrase Toy.platform Toy.defaults
           (js "base64:1000000:AQIDBAUGBwg=:CQoLDA0ODxAREhMU:i1w=") (Toy.node ∅)
           0%nat (js "1000000") (js "AQIDBAUGBwg=") (js "CQoLDA0ODxAREhMU")
           (js "i1w=") [1; 2; 3; 4; 5; 6; 7; 8]
           [9; 10; 11; 12; 13; 14; 15; 16; 17; 18; 19; 20] [139; 92]).
  - vm_compute. reflexivity.
  - vm_compute. reflexivity.
  - vm_compute. reflexivity.
  - vm_compute. reflexivity.
  - reflexivity.
  - intros k Hk. vm_compute in Hk. discriminate.
Defined.

(** ** src/secrets.ts: getEnvObject and mergeSecrets *)

(** Where [import.meta] exists, a target that is neither of the two enum
    values is refused with a message naming it. *)
Theorem getEnvObject_unsupported target w :
  import_meta_env w <> None ->
  target <> EnvTarget.PROCESS -> target <> EnvTarget.IMPORT_META ->
  getEnvObject target w
  = (Threw (JsError (js "Unsupported environment target: " ++ target)), w).
Proof.
  intros Hm Hp Hi. rewrite getEnvObject_resolves. unfold resolve_target.
  destruct (import_meta_env w); [|contradiction].
  now rewrite (bool_decide_false _ Hp), (bool_decide_false _ Hi).
Qed.

Lemma getEnvObject_unsupported_witness :
  getEnvObject (js "deno") (Toy.esm true Toy.keyed)
  = (Threw (JsError (js "Unsupported environment target: " ++ js "deno")),
     Toy.esm true Toy.keyed).
Proof.
  apply (getEnvObject_unsupported (js "deno") (Toy.esm true Toy.keyed));
    discriminate.
Defined.

(** When the target does not resolve, [mergeSecrets] throws the error of
    [getEnvObject] and has written nothing. *)
Theorem mergeSecrets_throws_without_writing payload target w e :
  fst (getEnvObject target w) = Threw e ->
  mergeSecrets payload target w = (Threw e, w).
Proof.
  rewrite getEnvObject_resolves. cbn [fst]. apply mergeSecrets_throws.
Qed.

Lemma mergeSecrets_throws_without_writing_witness :
  mergeSecrets [(js "A", js "1")] EnvTarget.IMPORT_META (Toy.esm false Toy.keyed)
  = (Threw import_meta_env_unavailable, Toy.esm false Toy.keyed).
Proof.
  apply (mergeSecrets_throws_without_writing [(js "A", js "1")]
           EnvTarget.IMPORT_META (Toy.esm false Toy.keyed)).
  reflexivity.
Defined.

Lemma stored_resolves target l m w w' :
  stored l m w w' ->
  resolve_target target (process_env w') (import_meta_env w')
  = resolve_target target (process_env w) (import_meta_env w).
Proof. intros (-> & -> & _). reflexivity. Qed.

(** Two merges into the same target compose, the later payload winning on
    the keys both hold: when the object records the entries of both
    payloads as they are given, it ends as the second payload over the
    first over its old entries. *)
Theorem mergeSecrets_last_write_wins p1 p2 target w l :
  fst (getEnvObject target w) = Returned l ->
  forallb (taken_as_given (kind_of w l)) p1 = true ->
  forallb (taken_as_given (kind_of w l)) p2 = true ->
  NoDup p1.*1 -> NoDup p2.*1 ->
  exists w',
    (_ <- mergeSecrets p1 target ;; mergeSecrets p2 target) w = (Returned l, w')
    /\ env_at w' l = list_to_map p2 ∪ (list_to_map p1 ∪ env_at w l).
Proof.
  rewrite getEnvObject_resolves. cbn [fst]. intros Hres Hg1 Hg2 Hn1 Hn2.
  destruct (mergeSecrets_stores p1 target w l Hres) as (w1 & Hrun1 & Hst1).
  destruct (mergeSecrets_stores p2 target w1 l) as (w2 & Hrun2 & Hst2);
    [now rewrite (stored_resolves target l p1 w w1 Hst1)|].
  exists w2. unfold bind. rewrite Hrun1, Hrun2. split; [reflexivity|].
  destruct Hst1 as (_ & _ & Hk1 & _ & _ & _ & He1 & _).
  destruct Hst2 as (_ & _ & _ & _ & _ & _ & He2 & _).
  rewrite He2, He1, Hk1.
  rewrite (assign_all_given _ p2) by assumption.
  rewrite (assign_all_given _ p1) by assumption.
  now rewrite !inserts_payload by assumption.
Qed.

Lemma mergeSecrets_last_write_wins_witness :
  exists w',
    (_ <- mergeSecrets [(js "A", js "1"); (js "B", js "2")] EnvTarget.PROCESS ;;
     mergeSecrets [(js "A", js "3")] EnvTarget.PROCESS) (Toy.node Toy.keyed)
    = (Returned 0%nat, w')
    /\ env_at w' 0
       = list_to_map [(js "A", js "3")]
           ∪ (list_to_map [(js "A", js "1"); (js "B", js "2")]
                ∪ env_at (Toy.node Toy.keyed) 0).
Proof.
  apply (mergeSecrets_last_write_wins [(js "A", js "1"); (js "B", js "2")]
           [(js "A", js "3")] EnvTarget.PROCESS (Toy.node Toy.keyed) 0%nat).
  - reflexivity.
  - vm_compute. reflexivity.
  - vm_compute. reflexivity.
  - apply (bool_decide_unpack _). vm_compute. exact I.
  - apply (bool_decide_unpack _). vm_compute. exact I.
Defined.

(** Merging the same payload again changes no entry. *)
Theorem mergeSecrets_idempotent payload target w l :
  fst (getEnvObject target w) = Returned l ->
  exists w1 w2,
    mergeSecrets payload target w = (Returned l, w1)
    /\ mergeSecrets payload target w1 = (Returned l, w2)
    /\ env_at w2 l = env_at w1 l.
Proof.
  rewrite getEnvObject_resolves. cbn [fst]. intros Hres.
  destruct (mergeSecrets_stores payload target w l Hres) as (w1 & Hrun1 & Hst1).
  destruct (mergeSecrets_stores payload target w1 l) as (w2 & Hrun2 & Hst2);
    [now rewrite (stored_resolves target l payload w w1 Hst1)|].
  exists w1, w2. split; [exact Hrun1|]. split; [exact Hrun2|].
  destruct Hst1 as (_ & _ & Hk1 & _ & _ & _ & He1 & _).
  destruct Hst2 as (_ & _ & _ & _ & _ & _ & He2 & _).
  rewrite He2, He1, Hk1. apply assign_all_twice.
Qed.

Lemma mergeSecrets_idempotent_witness :
  exists w1 w2,
    mergeSecrets [(js "A", js "1")] EnvTarget.PROCESS (Toy.node Toy.keyed)
    = (Returned 0%nat, w1)
    /\ mergeSecrets [(js "A", js "1")] EnvTarget.PROCESS w1 = (Returned 0%nat, w2)
    /\ env_at w2 0 = env_at w1 0.
Proof.
  apply (mergeSecrets_idempotent [(js "A", js "1")] EnvTarget.PROCESS
           (Toy.node Toy.keyed) 0%nat).
  reflexivity.
Defined.

Lemma get_property_given kind k v m :
  taken_as_given kind (k, v) = true -> get_property kind k m = m !! k.
Proof.
  destruct kind; [reflexivity|]. cbn [taken_as_given fst snd get_property].
  rewrite !andb_true_iff. intros [[[Hk _] _] _].
  now rewrite (c_string_plain k Hk).
Qed.

(** Where [process.env] and [import.meta.env] are one object, the entries
    it records as they are given, merged into the IMPORT_META target, are
    read back through [process.env]. *)
Theorem mergeSecrets_seen_through_alias payload w l :
  process_env w = Some (Some l) -> import_meta_env w = Some (Some l) ->
  forallb (taken_as_given (kind_of w l)) payload = true ->
  NoDup payload.*1 ->
  exists w',
    mergeSecrets payload EnvTarget.IMPORT_META w = (Returned l, w')
    /\ forall k v, (k, v) ∈ payload ->
         process_env_get k w' = (Returned (Some v), w').
Proof.
  intros Hp Hm Hgiven Hnd.
  destruct (mergeSecrets_stores payload EnvTarget.IMPORT_META w l)
    as (w' & Hrun & Hst).
  { unfold resolve_target. rewrite Hm.
    rewrite bool_decide_false by discriminate.
    now rewrite bool_decide_true by reflexivity. }
  exists w'. split; [exact Hrun|]. intros k v Hk.
  destruct Hst as (Hpe & _ & Hkind & _ & _ & _ & Henv & _).
  unfold process_env_get. rewrite Hpe, Hp, Hkind.
  rewrite (get_property_given _ k v).
  - rewrite Henv, (assign_all_given _ _ _ Hgiven).
    now rewrite (inserts_lookup payload _ k v Hnd Hk).
  - rewrite forallb_forall in Hgiven. apply Hgiven.
    now apply list_elem_of_In.
Qed.

Lemma mergeSecrets_seen_through_alias_witness :
  exists w',
    mergeSecrets [(js "A", js "1")] EnvTarget.IMPORT_META
      (mkWorld (Some (Some 0%nat)) (Some (Some 0%nat)) ∅ Toy.kinds (fun _ => 0) 0 [])
    = (Returned 0%nat, w')
    /\ forall k v,
         (k, v) ∈ [(js "A", js "1")] ->
         process_env_get k w' = (Returned (Some v), w').
Proof.
  apply (mergeSecrets_seen_through_alias [(js "A", js "1")]
           (mkWorld (Some (Some 0%nat)) (Some (Some 0%nat)) ∅ Toy.kinds (fun _ => 0) 0 [])
           0%nat).
  - reflexivity.
  - reflexivity.
  - vm_compute. reflexivity.
  - apply (bool_decide_unpack _). vm_compute. exact I.
Defined.

(** ** src/secrets.ts: loadSecrets *)

(** The JSON text of an object with string members, when nothing in them
    needs escaping. *)
Definition member_text (m : jsstring * jsstring) : jsstring :=
  34 :: m.1 ++ [34; 58; 34] ++ m.2 ++ [34].

Fixpoint members_text (ms : list (jsstring * jsstring)) : jsstring :=
  match ms with
  | [] => []
  | [m] => member_text m
  | m :: ms' => member_text m ++ 44 :: members_text ms'
  end.

Definition object_text (ms : list (jsstring * jsstring)) : jsstring :=
  123 :: members_text ms ++ [125].

(** On an envelope that decrypts to JSON of a payload, [loadSecrets]
    assigns the entries of the payload to the target's object, in order,
    and returns it, logging nothing; when the object records them as they
    are given, it ends as the payload over its old entries. *)
Theorem loadSecrets_merges_payload {P : Platform} M s target w json w1 payload l :
  decrypt M s w = (Returned json, w1) ->
  JSON_parse json = Returned payload ->
  fst (getEnvObject (default EnvTarget.PROCESS target) w) = Returned l ->
  exists w',
    loadSecrets M s target w = (Returned l, w')
    /\ env_at w' l = assign_all (kind_of w l) payload (env_at w l)
    /\ (forallb (taken_as_given (kind_of w l)) payload = true ->
        NoDup payload.*1 ->
        env_at w' l = list_to_map payload ∪ env_at w l)
    /\ trace w' = trace w1.
Proof.
  intros Hd Hj. rewrite getEnvObject_resolves. cbn [fst]. intros Hres.
  pose proof (logs_decrypt M s _ _ _ Hd) as (Hp & Hm & Hh & _ & _ & Hk).
  destruct (mergeSecrets_stores payload (default EnvTarget.PROCESS target) w1 l)
    as (w' & Hrun & Hst); [now rewrite Hp, Hm|].
  exists w'. unfold loadSecrets, try_catch, bind, lift.
  rewrite Hd, Hj, Hrun. split; [reflexivity|].
  destruct Hst as (_ & _ & _ & _ & _ & Ht & He & _).
  assert (Henv : env_at w' l = assign_all (kind_of w l) payload (env_at w l)).
  { rewrite He, Hk. unfold env_at. now rewrite Hh. }
  split; [exact Henv|]. split; [|exact Ht].
  intros Hgiven Hnd. rewrite Henv, (assign_all_given _ _ _ Hgiven).
  now apply inserts_payload.
Qed.

Lemma loadSecrets_merges_payload_witness :
  exists w',
    loadSecrets (P := WebCrypto.platform) Toy.defaults
      (js "base64:10:AQIDBAUGBwg=:CQoLDA0ODxAREhMU:4hVEEAk45lC/jRCmun2IVetP7HemgY13I6QeNo/Yb8G0lb5xpAgtfCYFsPWuGA0eMbdKDXigqQGbbtOGrPtpTtoTBY/6TdQSvCjU2vQ=")
      None (Toy.node Toy.keyed) = (Returned 0%nat, w')
    /\ env_at w' 0
       = assign_all (kind_of (Toy.node Toy.keyed) 0)
           [(js "API_KEY", js "test-api-key");
            (js "SECRET_TOKEN", js "test-secret-token")]
           (env_at (Toy.node Toy.keyed) 0)
    /\ (forallb (taken_as_given (kind_of (Toy.node Toy.keyed) 0))
          [(js "API_KEY", js "test-api-key");
           (js "SECRET_TOKEN", js "test-secret-token")] = true ->
        NoDup [(js "API_KEY", js "test-api-key");
               (js "SECRET_TOKEN", js "test-secret-token")].*1 ->
        env_at w' 0
        = list_to_map [(js "API_KEY", js "test-api-key");
                       (js "SECRET_TOKEN", js "test-secret-token")]
            ∪ env_at (Toy.node Toy.keyed) 0)
    /\ trace w'
       = trace (logged (Toy.node Toy.keyed) [ImportKey; DeriveKey; CipherDecrypt]).
Proof.
  apply (@loadSecrets_merges_payload WebCrypto.platform Toy.defaults
           (js "base64:10:AQIDBAUGBwg=:CQoLDA0ODxAREhMU:4hVEEAk45lC/jRCmun2IVetP7HemgY13I6QeNo/Yb8G0lb5xpAgtfCYFsPWuGA0eMbdKDXigqQGbbtOGrPtpTtoTBY/6TdQSvCjU2vQ=")
           None (Toy.node Toy.keyed)
           (object_text [(js "API_KEY", js "test-api-key");
                         (js "SECRET_TOKEN", js "test-secret-token")])
           (logged (Toy.node Toy.keyed) [ImportKey; DeriveKey; CipherDecrypt])
           [(js "API_KEY", js "test-api-key");
            (js "SECRET_TOKEN", js "test-secret-token")] 0%nat).
  - vm_compute. reflexivity.
  - vm_compute. reflexivity.
  - reflexivity.
Defined.

(** [loadSecrets] throws exactly the error of [getEnvObject] when the
    target does not resolve, whatever its input. *)
Theorem loadSecrets_throws_when_target_unresolved {P : Platform} M s target w e :
  fst (getEnvObject (default EnvTarget.PROCESS target) w) = Threw e ->
  fst (loadSecrets M s target w) = Threw e.
Proof.
  rewrite getEnvObject_resolves. cbn [fst]. intros Hres.
  unfold loadSecrets, try_catch. unfold bind at 1.
  destruct (decrypt M s w) as [[json|e0] w1] eqn:Ed;
    pose proof (logs_decrypt M s _ _ _ Ed) as (Hp & Hm & _).
  - unfold bind at 1, lift at 1.
    destruct (JSON_parse json) as [payload|e1].
    + rewrite (mergeSecrets_throws payload _ w1 e) by now rewrite Hp, Hm.
      unfold bind, console_error. rewrite getEnvObject_resolves.
      cbn [process_env import_meta_env with_trace fst]. now rewrite Hp, Hm.
    + unfold bind, console_error. rewrite getEnvObject_resolves.
      cbn [process_env import_meta_env with_trace fst]. now rewrite Hp, Hm.
  - unfold bind, console_error. rewrite getEnvObject_resolves.
    cbn [process_env import_meta_env with_trace fst]. now rewrite Hp, Hm.
Qed.

Lemma loadSecrets_throws_when_target_unresolved_witness :
  fst (loadSecrets (P := Toy.platform) Toy.defaults
         (js "base64:1000000:AQIDBAUGBwg=:CQoLDA0ODxAREhMU:nqAP")
         (Some (js "deno")) (Toy.esm true Toy.keyed))
  = Threw (unsupported_target (js "deno")).
Proof.
  apply (@loadSecrets_throws_when_target_unresolved Toy.platform Toy.defaults
           (js "base64:1000000:AQIDBAUGBwg=:CQoLDA0ODxAREhMU:nqAP")
           (Some (js "deno")) (Toy.esm true Toy.keyed)).
  reflexivity.
Defined.

(** ** src/providers/doppler.ts: fetchSecrets *)

(** The query of a request: [format=json], then the project and the
    config, each only when it is given and not empty. *)
Definition expected_query (args : FetchArgs) : list (jsstring * jsstring) :=
  (js "format", js "json")
    :: (if truthy (dopplerProject args)
        then [(js "project", default [] (dopplerProject args))] else [])
    ++ (if truthy (dopplerConfig args)
        then [(js "config", default [] (dopplerConfig args))] else []).

Section DopplerFacts.
Context {N : Network}.

Lemma fetchSecrets_sent args w r request :
  fetchSecrets args w = (r, [request]) ->
  r = promise_catch (promise_then (fetch request) on_response)
        (fun error => Threw (JsError (DOPPLER_PREFIX ++ error_text error)))
  /\ request_url request = DOPPLER_URL
  /\ request_query request = expected_query args.
Proof.
  unfold fetchSecrets.
  destruct (match dopplerToken args with
            | Some t => ret (Some t)
            | None => default_token
            end w) as [[token|e] w1]; [|discriminate].
  destruct (negb (truthy token)); [discriminate|].
  destruct (promise_then _ _) as [headers|e]; [|discriminate].
  intros [= <- <-]. split; [reflexivity|]. split; [reflexivity|].
  unfold expected_query. cbn [request_query].
  destruct (truthy (dopplerProject args)), (truthy (dopplerConfig args));
    reflexivity.
Qed.
End DopplerFacts.

(** Without a token (an empty one is given, or none is given and the
    variable is unset or empty in both environment objects), the call
    fails with the configuration error and sends no request. *)
Theorem fetchSecrets_requires_token {N : Network} args w :
  (dopplerToken args = Some []
   \/ (dopplerToken args = None
       /\ exists lp lm,
            process_env w = Some (Some lp) /\ import_meta_env w = Some (Some lm)
            /\ truthy (env_at w lp !! DOPPLER_TOKEN_VAR) = false
            /\ truthy (env_at w lm !! DOPPLER_TOKEN_VAR) = false)) ->
  fetchSecrets args w = (Threw token_required, []).
Proof.
  unfold fetchSecrets.
  intros [-> | (-> & lp & lm & Hp & Hm & Tp & Tm)]; [reflexivity|].
  unfold default_token, bind, process_env_get, import_meta_env_get, ret.
  rewrite Hp, (get_property_plain _ DOPPLER_TOKEN_VAR _ eq_refl), Tp.
  rewrite Hm, (get_property_plain _ DOPPLER_TOKEN_VAR _ eq_refl), Tm. reflexivity.
Qed.

Lemma fetchSecrets_requires_token_witness :
  fetchSecrets (N := ToyNet.network) (mkFetchArgs None (Some (js "p")) None)
    (Toy.esm true Toy.keyed)
  = (Threw token_required, []).
Proof.
  apply (@fetchSecrets_requires_token ToyNet.network
           (mkFetchArgs None (Some (js "p")) None) (Toy.esm true Toy.keyed)).
  right. split; [reflexivity|]. exists 0%nat, 1%nat.
  repeat split; vm_compute; reflexivity.
Defined.

(** With no token given, none in [process.env] and no [import.meta.env] to
    read, the call fails while evaluating its default, with the TypeError
    of the read that fails (of [DOPPLER_TOKEN] where [import.meta] exists
    without an [env], of [env] where [import.meta] itself is undefined) and
    not with the configuration error; no request is sent. *)
Theorem fetchSecrets_default_needs_import_meta_env {N : Network} args w lp :
  dopplerToken args = None ->
  process_env w = Some (Some lp) ->
  truthy (env_at w lp !! DOPPLER_TOKEN_VAR) = false ->
  mjoin (import_meta_env w) = None ->
  fetchSecrets args w
  = (Threw (TypeError
              (js "Cannot read properties of undefined (reading '"
               ++ match import_meta_env w with
                  | Some _ => DOPPLER_TOKEN_VAR
                  | None => js "env"
                  end ++ js "')")), []).
Proof.
  intros Ht Hp Tp Hm. unfold fetchSecrets. rewrite Ht.
  unfold default_token, bind, process_env_get, import_meta_env_get.
  rewrite Hp, (get_property_plain _ DOPPLER_TOKEN_VAR _ eq_refl), Tp.
  now destruct (import_meta_env w) as [[lm|]|].
Qed.

Lemma fetchSecrets_default_needs_import_meta_env_witness :
  fetchSecrets (N := ToyNet.network) (mkFetchArgs None None None)
    (Toy.esm false Toy.keyed)
  = (Threw (TypeError
              (js "Cannot read properties of undefined (reading 'DOPPLER_TOKEN')")),
     []).
Proof.
  apply (@fetchSecrets_default_needs_import_meta_env ToyNet.network
           (mkFetchArgs None None None) (Toy.esm false Toy.keyed) 0%nat).
  - reflexivity.
  - reflexivity.
  - vm_compute. reflexivity.
  - reflexivity.
Defined.

(** At most one request is sent; it goes to the download URL with the
    query [format=json] followed by the project and the config that were
    given. *)
Theorem fetchSecrets_request {N : Network} args w r requests :
  fetchSecrets args w = (r, requests) ->
  requests = []
  \/ exists request,
       requests = [request]
       /\ request_url request = DOPPLER_URL
       /\ request_query request = expected_query args.
Proof.
  intros H.
  assert (Hshape : requests = [] \/ exists request, requests = [request]).
  { revert H. unfold fetchSecrets.
    destruct (_ w) as [[token|e] w1]; [|intros [= _ <-]; now left].
    destruct (negb (truthy token)); [intros [= _ <-]; now left|].
    destruct (promise_then _ _) as [headers|e]; intros [= _ <-]; eauto. }
  destruct Hshape as [->|[request ->]]; [now left|]. right.
  exists request. split; [reflexivity|].
  now destruct (fetchSecrets_sent args w r request H) as (_ & Hu & Hq).
Qed.

Lemma fetchSecrets_request_witness :
  [mkRequest DOPPLER_URL [(js "format", js "json"); (js "project", js "p")]
     [(js "authorization", js "Bearer good");
      (js "user-agent", js "@jacobwolf/gitoops-secrets")]] = []
  \/ exists request,
       [mkRequest DOPPLER_URL [(js "format", js "json"); (js "project", js "p")]
          [(js "authorization", js "Bearer good");
           (js "user-agent", js "@jacobwolf/gitoops-secrets")]] = [request]
       /\ request_url request = DOPPLER_URL
       /\ request_query request
          = expected_query (mkFetchArgs (Some (js "good")) (Some (js "p")) (Some [])).
Proof.
  apply (@fetchSecrets_request ToyNet.network
           (mkFetchArgs (Some (js "good")) (Some (js "p")) (Some []))
           (Toy.node ∅) (Returned None)).
  vm_compute. reflexivity.
Defined.

(** A response that is not ok is reported by its status line alone, behind
    the prefix twice: neither the messages of its body nor a failure to
    read the body reaches the caller. *)
Theorem fetchSecrets_not_ok {N : Network} args w r request response :
  fetchSecrets args w = (r, [request]) ->
  fetch request = Returned response ->
  response_ok response = false ->
  r = Threw (JsError (DOPPLER_PREFIX ++ DOPPLER_PREFIX
                        ++ decimal_of_nat (response_status response)
                        ++ 32 :: response_statusText response)).
Proof.
  intros H Hf Hok.
  destruct (fetchSecrets_sent args w r request H) as (-> & _ & _).
  rewrite Hf. cbn [promise_then]. unfold on_response. rewrite Hok.
  destruct (response_json response) as [data|e]; cbn [promise_then promise_catch].
  - destruct (joined_messages data) as [m|e]; reflexivity.
  - reflexivity.
Qed.

Lemma fetchSecrets_not_ok_witness :
  Threw (A := option jsstring)
    (JsError (js "Doppler API Error: Doppler API Error: 401 Unauthorized"))
  = Threw (JsError (DOPPLER_PREFIX ++ DOPPLER_PREFIX
                      ++ decimal_of_nat 401 ++ 32 :: js "Unauthorized")).
Proof.
  apply (@fetchSecrets_not_ok ToyNet.network
           (mkFetchArgs (Some (js "bad")) None None) (Toy.node ∅)
           (Threw (JsError (js "Doppler API Error: Doppler API Error: 401 Unauthorized")))
           (mkRequest DOPPLER_URL [(js "format", js "json")]
              [(js "authorization", js "Bearer bad");
               (js "user-agent", js "@jacobwolf/gitoops-secrets")])
           (mkResponse false 401 (js "Unauthorized")
              (Returned (Some (js "Invalid authentication credentials"))))).
  - vm_compute. reflexivity.
  - vm_compute. reflexivity.
  - reflexivity.
Defined.

(** Once the request is sent, the call resolves only with the body of an
    ok response, and every rejection is an [Error] whose message starts
    with "Doppler API Error: ". *)
Theorem fetchSecrets_settles {N : Network} args w r request :
  fetchSecrets args w = (r, [request]) ->
  (exists response data,
     fetch request = Returned response /\ response_ok response = true
     /\ response_json response = Returned data /\ r = Returned data)
  \/ exists m, r = Threw (JsError (DOPPLER_PREFIX ++ m)).
Proof.
  intros H.
  destruct (fetchSecrets_sent args w r request H) as (-> & _ & _).
  destruct (fetch request) as [response|e] eqn:Ef; cbn [promise_then promise_catch];
    [|right; eauto].
  unfold on_response. destruct (response_ok response) eqn:Eok.
  - destruct (response_json response) as [data|e] eqn:Ej; cbn [promise_catch].
    + left. now exists response, data.
    + right. eauto.
  - right.
    destruct (response_json response) as [data|e]; cbn [promise_then promise_catch];
      [destruct (joined_messages data) as [m|e]|]; cbn [promise_catch]; eauto.
Qed.

Lemma fetchSecrets_settles_witness :
  (exists response data,
     fetch (Network := ToyNet.network)
       (mkRequest DOPPLER_URL [(js "format", js "json")]
          [(js "authorization", js "Bearer good");
           (js "user-agent", js "@jacobwolf/gitoops-secrets")])
     = Returned response
     /\ response_ok response = true
     /\ response_json response = Returned data
     /\ Returned None = Returned data)
  \/ exists m,
       Returned (None : option jsstring) = Threw (JsError (DOPPLER_PREFIX ++ m)).
Proof.
  apply (@fetchSecrets_settles ToyNet.network
           (mkFetchArgs (Some (js "good")) None None) (Toy.node ∅)
           (Returned None)
           (mkRequest DOPPLER_URL [(js "format", js "json")]
              [(js "authorization", js "Bearer good");
               (js "user-agent", js "@jacobwolf/gitoops-secrets")])).
  vm_compute. reflexivity.
Defined.

(** ** src/secrets.ts: the rounds segment *)

Definition starts_with_digit (t : jsstring) : bool :=
  match t with
  | c :: _ => is_digit c
  | [] => false
  end.

Lemma leading_digits_app ds t :
  forallb is_digit ds = true -> starts_with_digit t = false ->
  leading_digits (ds ++ t) = ds.
Proof.
  intros Hd Ht. induction ds as [|c ds IH]; cbn [app leading_digits].
  - destruct t as [|c t]; [reflexivity|]. unfold starts_with_digit in Ht.
    cbn [leading_digits]. now rewrite Ht.
  - cbn [forallb] in Hd. apply andb_true_iff in Hd as [-> Hd]. now rewrite IH.
Qed.

Section RoundsSuffix.
Context {P : Platform}.

Lemma parseInt10_leading c s :
  is_digit c = true ->
  parseInt10 (c :: s)
  = match leading_digits (c :: s) with
    | [] => NaN
    | ds => num_of_Z (digits_value ds)
    end.
Proof.
  intros Hc. unfold parseInt10.
  destruct (digit_cases c Hc) as [->|[->|[->|[->|[->|[->|[->|[->|[->| ->]]]]]]]]];
    cbn [trim_start];
    match goal with
    | |- context [is_js_whitespace ?d] => change (is_js_whitespace d) with false
    end;
    cbv beta iota; cbn [leading_digits is_digit Z.leb Z.compare Pos.compare
                          Pos.compare_cont andb];
    f_equal; lia.
Qed.

Lemma parseInt10_suffix ds t :
  ds <> [] -> forallb is_digit ds = true -> starts_with_digit t = false ->
  parseInt10 (ds ++ t) = parseInt10 ds.
Proof.
  intros Hne Hd Ht. destruct ds as [|c ds]; [contradiction|].
  assert (Hc : is_digit c = true)
    by (cbn [forallb] in Hd; now apply andb_true_iff in Hd as [? _]).
  change ((c :: ds) ++ t) with (c :: (ds ++ t)).
  rewrite !parseInt10_leading by assumption.
  change (c :: (ds ++ t)) with ((c :: ds) ++ t).
  now rewrite leading_digits_app, leading_digits_all.
Qed.

Lemma encodedData_of_digits c s :
  is_digit c = true -> encodedData_of (c :: s) = c :: s.
Proof.
  intros Hc.
  destruct (digit_cases c Hc) as [->|[->|[->|[->|[->|[->|[->|[->|[->| ->]]]]]]]]];
    reflexivity.
Qed.

Lemma encodedData_of_numeral ds s :
  ds <> [] -> forallb is_digit ds = true -> encodedData_of (ds ++ s) = ds ++ s.
Proof.
  intros Hne Hd. destruct ds as [|c ds]; [contradiction|].
  cbn [forallb] in Hd. apply andb_true_iff in Hd as [Hc _].
  now apply encodedData_of_digits.
Qed.
End RoundsSuffix.

(** The rounds segment is read as far as its leading digits go: whatever
    follows them in the segment changes nothing. *)
Theorem decrypt_ignores_rounds_suffix {P : Platform} M ds t rest w :
  ds <> [] -> forallb is_digit ds = true ->
  starts_with_digit t = false -> Forall (fun c => c <> COLON) t ->
  decrypt M (ds ++ t ++ COLON :: rest) w = decrypt M (ds ++ COLON :: rest) w.
Proof.
  intros Hne Hd Ht Hcolon.
  assert (E : ds ++ t ++ COLON :: rest = (ds ++ t) ++ COLON :: rest)
    by now rewrite <- app_assoc.
  unfold decrypt.
  rewrite (encodedData_of_numeral ds (COLON :: rest) Hne Hd).
  rewrite (encodedData_of_numeral ds (t ++ COLON :: rest) Hne Hd).
  rewrite E.
  rewrite (split_on_segment COLON (ds ++ t))
    by (apply Forall_app; split; [now apply digits_no_colon | assumption]).
  rewrite (split_on_segment COLON ds) by now apply digits_no_colon.
  destruct (split_on COLON rest) as [|p1 [|p2 [|p3 [|p4 r]]]]; try reflexivity.
  now rewrite (parseInt10_suffix ds t).
Qed.

Lemma decrypt_ignores_rounds_suffix_witness :
  decrypt (P := Toy.platform) Toy.defaults
    (js "1000000" ++ js "e9 rounds" ++ COLON :: js "AQIDBAUGBwg=:CQoLDA0ODxAREhMU:i1w=")
    (Toy.node Toy.keyed)
  = decrypt (P := Toy.platform) Toy.defaults
      (js "1000000" ++ COLON :: js "AQIDBAUGBwg=:CQoLDA0ODxAREhMU:i1w=")
      (Toy.node Toy.keyed).
Proof.
  apply (@decrypt_ignores_rounds_suffix Toy.platform Toy.defaults
           (js "1000000") (js "e9 rounds")
           (js "AQIDBAUGBwg=:CQoLDA0ODxAREhMU:i1w=") (Toy.node Toy.keyed)).
  - discriminate.
  - reflexivity.
  - reflexivity.
  - vm_compute. repeat (apply List.Forall_cons; [discriminate|]). apply List.Forall_nil.
Defined.
